(** * Trino Iceberg maintenance: scheduler core

    A shallow embedding of [trino_iceberg_maintenance/__main__.py] (the
    variant exercised by [tests/test_maintenance.py]) and of the due-checks
    of the older single-file script [trino_iceberg_maintenance.py].

    Conventions of the embedding:
    - a [datetime.datetime] is the number of microseconds elapsed since
      [datetime.min] (0001-01-01T00:00:00); Python refuses to build a value
      outside [datetime.min .. datetime.max];
    - a nullable column of the policy table arrives in Python as [None] or
      as a value, hence [option];
    - every call that leaves the process ([connection_factory()],
      [cur.execute], [datetime.datetime.now()]) is a node of a [task] tree;
      an [Engine] over a world type answers these calls;
    - [logging.info] lines of [execute] are not modelled (they reach no
      collaborator of the scheduler); the [logger.exception] records of
      [run_maintenance] are. *)

From Stdlib Require Import ZArith List String Bool Lia Ascii Permutation.
Import ListNotations.

Open Scope string_scope.
Open Scope Z_scope.

(** ** Python values used by the script *)

Definition datetime := Z.

Definition microseconds_per_day : Z := 86400000000.

(** [datetime.max] is 9999-12-31T23:59:59.999999; its date has ordinal
    3652059 (day 1 is 0001-01-01). *)
Definition datetime_max : Z := 3652059 * microseconds_per_day - 1.

Definition valid_datetime (t : datetime) : Prop := 0 <= t <= datetime_max.

(** [timedelta] refuses more than 999999999 days in either direction. *)
Definition timedelta_max_days : Z := 999999999.

Inductive exn : Type :=
| TypeError
| OverflowError
| ValueError
| EngineError (msg : string).

Inductive result (E A : Type) : Type :=
| Ok (a : A)
| Raised (e : E).

Arguments Ok {E A} a.
Arguments Raised {E A} e.

(** [datetime.timedelta(days=d)]: [d] comes from a nullable INTEGER column. *)
Definition timedelta (days : option Z) : result exn Z :=
  match days with
  | None => Raised TypeError
  | Some d =>
      if Z.abs d <=? timedelta_max_days
      then Ok (d * microseconds_per_day)
      else Raised OverflowError
  end.

(** [t + delta] on a [datetime]: the sum must be a [datetime] again. *)
Definition datetime_add (t : datetime) (delta : Z) : result exn datetime :=
  let r := t + delta in
  if (0 <=? r) && (r <=? datetime_max) then Ok r else Raised OverflowError.

(** Truth value of an INTEGER flag in an [if]: [None] and [0] are false. *)
Definition truthy (flag : option Z) : bool :=
  match flag with
  | None => false
  | Some z => negb (z =? 0)
  end.

(** ** The policy row *)

Record MaintenanceProperties : Type := mkProps {
  table_name : string;
  should_analyze : option Z;
  last_analyzed_on : option datetime;
  days_to_analyze : option Z;
  columns_to_analyze : option (list string);
  should_optimize : option Z;
  last_optimized_on : option datetime;
  days_to_optimize : option Z;
  should_expire_snapshots : option Z;
  retention_days_snapshots : option Z;
  should_remove_orphan_files : option Z;
  retention_days_orphan_files : option Z
}.

(** [MaintenanceTaskException]: the policy of the task, and the exception it
    was raised [from]. *)
Record MaintenanceTaskException : Type := mkTaskException {
  maintenance_properties : MaintenanceProperties;
  cause : exn
}.

(** ** Statements sent through [cur.execute]

    One constructor per statement template of [execute], carrying the
    values interpolated into it:
    - [ALTER TABLE t EXECUTE remove_orphan_files(retention_threshold => 'Nd')]
    - [ALTER TABLE t EXECUTE expire_snapshots(retention_threshold => 'Nd')]
    - [ALTER TABLE t EXECUTE optimize]
    - [UPDATE <policy table> SET last_optimized_on = current_timestamp(6)
       WHERE table_name = 't']
    - [ANALYZE t <with_columns>]
    - [UPDATE <policy table> SET last_analyzed_on = current_timestamp(6)
       WHERE table_name = 't'] *)
Inductive statement : Type :=
| RemoveOrphanFiles (t : string) (retention_days : option Z)
| ExpireSnapshots (t : string) (retention_days : option Z)
| Optimize (t : string)
| UpdateLastOptimizedOn (t : string)
| Analyze (t : string) (with_columns : string)
| UpdateLastAnalyzedOn (t : string).

(** ** Tasks: trees of calls to the outside *)

Inductive task (E A : Type) : Type :=
| Ret (a : A)
| Raise (e : E)
| Connect (k : option exn -> task E A)
| Release (k : task E A)
| Execute (s : statement) (k : option exn -> task E A)
| Now (k : datetime -> task E A).

Arguments Ret {E A} a.
Arguments Raise {E A} e.
Arguments Connect {E A} k.
Arguments Release {E A} k.
Arguments Execute {E A} s k.
Arguments Now {E A} k.

Fixpoint bind {E A B : Type} (t : task E A) (f : A -> task E B) : task E B :=
  match t with
  | Ret a => f a
  | Raise e => Raise e
  | Connect k => Connect (fun r => bind (k r) f)
  | Release k => Release (bind k f)
  | Execute s k => Execute s (fun r => bind (k r) f)
  | Now k => Now (fun n => bind (k n) f)
  end.

Notation "x <- t1 ;; t2" := (bind t1 (fun x => t2))
  (at level 61, t1 at next level, right associativity).
Notation "t1 ;; t2" := (bind t1 (fun _ => t2))
  (at level 61, right associativity).

(** [try: t  except Exception as e: h e] *)
Fixpoint try_except {E E' A : Type} (t : task E A) (h : E -> task E' A)
  : task E' A :=
  match t with
  | Ret a => Ret a
  | Raise e => h e
  | Connect k => Connect (fun r => try_except (k r) h)
  | Release k => Release (try_except k h)
  | Execute s k => Execute s (fun r => try_except (k r) h)
  | Now k => Now (fun n => try_except (k n) h)
  end.

(** The exit half of a [with] block: the connection is released whether the
    body returns or raises, and the exception continues. Leaving the block
    is taken not to raise by itself, and [conn.cursor()], which sends
    nothing, is not a call of its own. *)
Fixpoint releasing {E A : Type} (t : task E A) : task E A :=
  match t with
  | Ret a => Release (Ret a)
  | Raise e => Release (Raise e)
  | Connect k => Connect (fun r => releasing (k r))
  | Release k => Release (releasing k)
  | Execute s k => Execute s (fun r => releasing (k r))
  | Now k => Now (fun n => releasing (k n))
  end.

(** [with self.connection_factory() as conn: body] *)
Definition with_connection {A : Type} (body : task exn A) : task exn A :=
  Connect (fun r =>
    match r with
    | Some e => Raise e
    | None => releasing body
    end).

Definition lift {A : Type} (r : result exn A) : task exn A :=
  match r with
  | Ok a => Ret a
  | Raised e => Raise e
  end.

(** [cur.execute(s)]: an exception of the engine propagates. *)
Definition cur_execute (s : statement) : task exn unit :=
  Execute s (fun r =>
    match r with
    | None => Ret tt
    | Some e => Raise e
    end).

(** ** [MaintenanceTask.execute], tested variant ([__main__.py]) *)

Definition newline : string := String (ascii_of_nat 10) EmptyString.

(** [f"'{x}'"] *)
Definition quoted (x : string) : string := "'" ++ x ++ "'".

(** The [with_columns] fragment of the ANALYZE statement:
    empty if [columns_to_analyze is None or len(columns_to_analyze) == 0],
    else the f-string holding the quoted names joined by [", "]. *)
Definition with_columns (columns : option (list string)) : string :=
  match columns with
  | None => EmptyString
  | Some [] => EmptyString
  | Some cs =>
      " " ++ newline ++ "                    WITH (columns = ARRAY["
          ++ String.concat ", " (map quoted cs) ++ "])"
  end.

(** [not last or last + datetime.timedelta(days=days) <= datetime.datetime.now()]:
    [or] stops at a missing watermark; otherwise the sum is built first and
    the clock is read after it. *)
Definition interval_elapsed (last : option datetime) (days : option Z)
  : task exn bool :=
  match last with
  | None => Ret true
  | Some l =>
      delta <- lift (timedelta days) ;;
      due_at <- lift (datetime_add l delta) ;;
      Now (fun now => Ret (due_at <=? now))
  end.

(** [should_optimize and (...)]: [and] stops at a false flag. *)
Definition optimize_due (p : MaintenanceProperties) : task exn bool :=
  if truthy (should_optimize p)
  then interval_elapsed (last_optimized_on p) (days_to_optimize p)
  else Ret false.

Definition analyze_due (p : MaintenanceProperties) : task exn bool :=
  if truthy (should_analyze p)
  then interval_elapsed (last_analyzed_on p) (days_to_analyze p)
  else Ret false.

Definition remove_orphan_files_step (p : MaintenanceProperties) : task exn unit :=
  if truthy (should_remove_orphan_files p)
  then cur_execute (RemoveOrphanFiles (table_name p) (retention_days_orphan_files p))
  else Ret tt.

Definition expire_snapshots_step (p : MaintenanceProperties) : task exn unit :=
  if truthy (should_expire_snapshots p)
  then cur_execute (ExpireSnapshots (table_name p) (retention_days_snapshots p))
  else Ret tt.

Definition optimize_step (p : MaintenanceProperties) : task exn unit :=
  due <- optimize_due p ;;
  if due : bool
  then cur_execute (Optimize (table_name p)) ;;
       cur_execute (UpdateLastOptimizedOn (table_name p))
  else Ret tt.

Definition analyze_step (p : MaintenanceProperties) : task exn unit :=
  due <- analyze_due p ;;
  if due : bool
  then cur_execute (Analyze (table_name p) (with_columns (columns_to_analyze p))) ;;
       cur_execute (UpdateLastAnalyzedOn (table_name p))
  else Ret tt.

(** The steps that come before the optimize block, and before the analyze
    block. *)
Definition cleanup_steps (p : MaintenanceProperties) : task exn unit :=
  remove_orphan_files_step p ;;
  expire_snapshots_step p.

Definition steps_before_analyze (p : MaintenanceProperties) : task exn unit :=
  cleanup_steps p ;;
  optimize_step p.

(** The body of the [with] block, in the order of the source: remove
    orphan files, expire snapshots, optimize, analyze. *)
Definition maintenance_steps (p : MaintenanceProperties) : task exn unit :=
  steps_before_analyze p ;;
  analyze_step p.

Definition execute (p : MaintenanceProperties)
  : task MaintenanceTaskException unit :=
  try_except (with_connection (maintenance_steps p))
             (fun e => Raise (mkTaskException p e)).

(** ** The due-checks of the single-file script ([trino_iceberg_maintenance.py]) *)

Module NonTest.

(** [not last or last + datetime.timedelta(days=days) > datetime.datetime.now()] *)
Definition interval_elapsed (last : option datetime) (days : option Z)
  : task exn bool :=
  match last with
  | None => Ret true
  | Some l =>
      delta <- lift (timedelta days) ;;
      due_at <- lift (datetime_add l delta) ;;
      Now (fun now => Ret (now <? due_at))
  end.

Definition optimize_due (p : MaintenanceProperties) : task exn bool :=
  if truthy (should_optimize p)
  then interval_elapsed (last_optimized_on p) (days_to_optimize p)
  else Ret false.

Definition analyze_due (p : MaintenanceProperties) : task exn bool :=
  if truthy (should_analyze p)
  then interval_elapsed (last_analyzed_on p) (days_to_analyze p)
  else Ret false.

End NonTest.

(** ** Engines and runs *)

(** What the outside answers. [W] is the state of everything outside the
    process: the engine, the policy table, the clock. [fetch_policies] is
    [SELECT * FROM <policy table>] followed by [fetchall()]. *)
Record Engine (W : Type) : Type := mkEngine {
  connection_factory : W -> W * option exn;
  connection_exit : W -> W;
  cursor_execute : statement -> W -> W * option exn;
  datetime_now : W -> datetime;
  fetch_policies : W -> W * result exn (list MaintenanceProperties)
}.

Arguments connection_factory {W} _ _.
Arguments connection_exit {W} _ _.
Arguments cursor_execute {W} _ _ _.
Arguments datetime_now {W} _ _.
Arguments fetch_policies {W} _ _.

Inductive event : Type :=
| EvConnect (r : option exn)
| EvRelease
| EvExecute (s : statement) (r : option exn)
| EvNow (t : datetime).

Record run_result (W E A : Type) : Type := mkRun {
  final : W;
  trace : list event;
  value : result E A
}.

Arguments mkRun {W E A} _ _ _.
Arguments final {W E A} _.
Arguments trace {W E A} _.
Arguments value {W E A} _.

Definition after {W E A : Type} (ev : event) (r : run_result W E A)
  : run_result W E A :=
  mkRun (final r) (ev :: trace r) (value r).

Fixpoint run {W E A : Type} (eng : Engine W) (t : task E A) (w : W)
  : run_result W E A :=
  match t with
  | Ret a => mkRun w [] (Ok a)
  | Raise e => mkRun w [] (Raised e)
  | Connect k =>
      let (w', r) := connection_factory eng w in
      after (EvConnect r) (run eng (k r) w')
  | Release k =>
      after EvRelease (run eng k (connection_exit eng w))
  | Execute s k =>
      let (w', r) := cursor_execute eng s w in
      after (EvExecute s r) (run eng (k r) w')
  | Now k =>
      let n := datetime_now eng w in
      after (EvNow n) (run eng (k n) w)
  end.

(** The statements a run sent to the engine, in order. *)
Fixpoint issued (tr : list event) : list statement :=
  match tr with
  | [] => []
  | EvExecute s _ :: tr' => s :: issued tr'
  | _ :: tr' => issued tr'
  end.

(** ** The policy table seen as rows

    What the statements of [execute] mean for the rows of the policy table:
    the two UPDATE statements set one watermark column to the engine's
    [current_timestamp(6)] in the rows selected by their WHERE clause; the
    table procedures and ANALYZE change no row content.

    The WHERE clause is the text [table_name = '{table_name}'], the name
    put between the quotes as it is. For a name that holds no quote
    character the text compares the column with one string literal, and
    selects the rows of that name. A quote inside the name ends the
    literal early and what follows it is read as SQL: the rows the clause
    then selects are for the engine to say, and [reading] stands for its
    answer, name by name and row by row. *)

Definition policy_store := list MaintenanceProperties.

Definition set_last_optimized_on (ts : datetime) (row : MaintenanceProperties)
  : MaintenanceProperties :=
  mkProps (table_name row) (should_analyze row) (last_analyzed_on row)
          (days_to_analyze row) (columns_to_analyze row) (should_optimize row)
          (Some ts) (days_to_optimize row) (should_expire_snapshots row)
          (retention_days_snapshots row) (should_remove_orphan_files row)
          (retention_days_orphan_files row).

Definition set_last_analyzed_on (ts : datetime) (row : MaintenanceProperties)
  : MaintenanceProperties :=
  mkProps (table_name row) (should_analyze row) (Some ts)
          (days_to_analyze row) (columns_to_analyze row) (should_optimize row)
          (last_optimized_on row) (days_to_optimize row) (should_expire_snapshots row)
          (retention_days_snapshots row) (should_remove_orphan_files row)
          (retention_days_orphan_files row).

Definition quote_char : ascii := "'"%char.

Fixpoint quote_free (s : string) : bool :=
  match s with
  | EmptyString => true
  | String c s' => negb (Ascii.eqb c quote_char) && quote_free s'
  end.

(** What an engine makes of the clause for a name that holds a quote. *)
Definition clause_reading := string -> MaintenanceProperties -> bool.

(** [WHERE table_name = '{t}'], asked of a row. *)
Definition where_table_name (reading : clause_reading) (t : string)
    (row : MaintenanceProperties) : bool :=
  if quote_free t then String.eqb (table_name row) t else reading t row.

Definition update_where (reading : clause_reading) (t : string)
    (set : MaintenanceProperties -> MaintenanceProperties)
    (store : policy_store) : policy_store :=
  map (fun row => if where_table_name reading t row then set row else row) store.

Definition store_effect (reading : clause_reading) (s : statement)
    (current_timestamp : datetime) (store : policy_store) : policy_store :=
  match s with
  | UpdateLastOptimizedOn t =>
      update_where reading t (set_last_optimized_on current_timestamp) store
  | UpdateLastAnalyzedOn t =>
      update_where reading t (set_last_analyzed_on current_timestamp) store
  | _ => store
  end.

(** The table a statement names. *)
Definition statement_table (s : statement) : string :=
  match s with
  | RemoveOrphanFiles t _ => t
  | ExpireSnapshots t _ => t
  | Optimize t => t
  | UpdateLastOptimizedOn t => t
  | Analyze t _ => t
  | UpdateLastAnalyzedOn t => t
  end.

(** ** [run_maintenance]: the worker pool

    [executor.submit] queues one [execute] per row; at most [max_workers]
    of them are running at a time and they are started in submission order.
    A task is therefore allowed to make its next call exactly when it is
    among the first [max_workers] unfinished ones. A schedule names, call
    after call, the task that moves next. *)

Definition finished {E A : Type} (t : task E A) : bool :=
  match t with
  | Ret _ | Raise _ => true
  | _ => false
  end.

(** One call of a task. *)
Definition step {W E A : Type} (eng : Engine W) (t : task E A) (w : W)
  : W * task E A :=
  match t with
  | Ret _ | Raise _ => (w, t)
  | Connect k => let (w', r) := connection_factory eng w in (w', k r)
  | Release k => (connection_exit eng w, k)
  | Execute s k => let (w', r) := cursor_execute eng s w in (w', k r)
  | Now k => (w, k (datetime_now eng w))
  end.

Definition future := task MaintenanceTaskException unit.

Definition future_result := result MaintenanceTaskException unit.

(** The terminal task holding a result. *)
Definition settled (r : future_result) : future :=
  match r with
  | Ok a => Ret a
  | Raised e => Raise e
  end.

Definition result_of (t : future) : option future_result :=
  match t with
  | Ret a => Some (Ok a)
  | Raise e => Some (Raised e)
  | _ => None
  end.

Record pool (W : Type) : Type := mkPool {
  world : W;
  futures : list future;
  (** futures in the order in which they completed, with their results *)
  completed : list (nat * future_result)
}.

Arguments mkPool {W} _ _ _.
Arguments world {W} _.
Arguments futures {W} _.
Arguments completed {W} _.

Fixpoint set_nth {A : Type} (j : nat) (a : A) (l : list A) : list A :=
  match l, j with
  | [], _ => []
  | _ :: l', O => a :: l'
  | x :: l', S j' => x :: set_nth j' a l'
  end.

Fixpoint unfinished_before (fs : list future) (j : nat) : nat :=
  match fs, j with
  | f :: fs', S j' =>
      ((if finished f then 0 else 1) + unfinished_before fs' j')%nat
  | _, _ => 0%nat
  end.

Definition eligible (max_workers : Z) (fs : list future) (j : nat) : bool :=
  match nth_error fs j with
  | Some f => negb (finished f) && (Z.of_nat (unfinished_before fs j) <? max_workers)
  | None => false
  end.

Definition pool_step {W : Type} (eng : Engine W) (max_workers : Z)
    (j : nat) (st : pool W) : pool W :=
  match nth_error (futures st) j with
  | Some f =>
      if eligible max_workers (futures st) j then
        let (w', f') := step eng f (world st) in
        mkPool w' (set_nth j f' (futures st))
               (match result_of f' with
                | Some r => completed st ++ [(j, r)]
                | None => completed st
                end)
      else st
  | None => st
  end.

(** Waiting for a future that is still running: it runs to its end. *)
Definition wait_for {W : Type} (eng : Engine W) (j : nat) (st : pool W)
  : pool W :=
  match nth_error (futures st) j with
  | Some f =>
      if finished f then st
      else
        let r := run eng f (world st) in
        mkPool (final r) (set_nth j (settled (value r)) (futures st))
               (completed st ++ [(j, value r)])
  | None => st
  end.

Definition run_pool {W : Type} (eng : Engine W) (max_workers : Z)
    (schedule : list nat) (st : pool W) : pool W :=
  let st' := fold_left (fun s j => pool_step eng max_workers j s) schedule st in
  fold_left (fun s j => wait_for eng j s) (seq 0 (List.length (futures st'))) st'.

(** A record written by [logger.exception]: the message and the exception
    being handled. *)
Record log_record : Type := mkLog {
  message : string;
  exc_info : MaintenanceTaskException
}.

Definition failure_record (e : MaintenanceTaskException) : log_record :=
  mkLog ("An exception has occurred while running maintenance tasks for "
           ++ table_name (maintenance_properties e)) e.

(** The [for future in as_completed(futures)] loop. *)
Fixpoint collect (results : list (nat * future_result)) : list log_record :=
  match results with
  | [] => []
  | (_, Ok _) :: rest => collect rest
  | (_, Raised e) :: rest => failure_record e :: collect rest
  end.

Record cycle (W : Type) : Type := mkCycle {
  cycle_world : W;
  outcomes : list (nat * future_result);
  log : list log_record;
  (** what [run_maintenance] hands back: [None], or an exception it let
      through *)
  returned : result exn unit
}.

Arguments mkCycle {W} _ _ _ _.
Arguments cycle_world {W} _.
Arguments outcomes {W} _.
Arguments log {W} _.
Arguments returned {W} _.

(** [run_maintenance(trino_connection, connection_factory)]; [max_workers]
    is [int(NUM_WORKERS)], and [ThreadPoolExecutor] refuses a value below 1. *)
Definition run_maintenance {W : Type} (eng : Engine W) (max_workers : Z)
    (schedule : list nat) (w : W) : cycle W :=
  match fetch_policies eng w with
  | (w1, Raised e) => mkCycle w1 [] [] (Raised e)
  | (w1, Ok tasks) =>
      if max_workers <=? 0 then mkCycle w1 [] [] (Raised ValueError)
      else
        let st := run_pool eng max_workers schedule
                           (mkPool w1 (map execute tasks) []) in
        mkCycle (world st) (completed st) (collect (completed st)) (Ok tt)
  end.

Definition count_failed (rs : list (nat * future_result)) : nat :=
  List.length (filter (fun jr => match snd jr with Raised _ => true | Ok _ => false end) rs).

Definition count_succeeded (rs : list (nat * future_result)) : nat :=
  List.length (filter (fun jr => match snd jr with Ok _ => true | Raised _ => false end) rs).

(** ** Vocabulary of the specification *)

(** The two operations gated by a staleness window. *)
Inductive gated_operation : Type :=
| GOptimize
| GAnalyze.

Definition enabled (op : gated_operation) (p : MaintenanceProperties) : bool :=
  match op with
  | GOptimize => truthy (should_optimize p)
  | GAnalyze => truthy (should_analyze p)
  end.

Definition watermark (op : gated_operation) (p : MaintenanceProperties)
  : option datetime :=
  match op with
  | GOptimize => last_optimized_on p
  | GAnalyze => last_analyzed_on p
  end.

Definition interval_days (op : gated_operation) (p : MaintenanceProperties)
  : option Z :=
  match op with
  | GOptimize => days_to_optimize p
  | GAnalyze => days_to_analyze p
  end.

(** The engine command of the operation, and its bookkeeping statement. *)
Definition action (op : gated_operation) (p : MaintenanceProperties) : statement :=
  match op with
  | GOptimize => Optimize (table_name p)
  | GAnalyze => Analyze (table_name p) (with_columns (columns_to_analyze p))
  end.

Definition bookkeeping (op : gated_operation) (p : MaintenanceProperties)
  : statement :=
  match op with
  | GOptimize => UpdateLastOptimizedOn (table_name p)
  | GAnalyze => UpdateLastAnalyzedOn (table_name p)
  end.

(** The due-check of the operation in each variant, its block in [execute],
    and the part of [execute] that runs before that block. *)
Definition due_check (op : gated_operation) (p : MaintenanceProperties)
  : task exn bool :=
  match op with
  | GOptimize => optimize_due p
  | GAnalyze => analyze_due p
  end.

Definition nontest_due_check (op : gated_operation) (p : MaintenanceProperties)
  : task exn bool :=
  match op with
  | GOptimize => NonTest.optimize_due p
  | GAnalyze => NonTest.analyze_due p
  end.

Definition gated_step (op : gated_operation) (p : MaintenanceProperties)
  : task exn unit :=
  match op with
  | GOptimize => optimize_step p
  | GAnalyze => analyze_step p
  end.

Definition steps_before (op : gated_operation) (p : MaintenanceProperties)
  : task exn unit :=
  match op with
  | GOptimize => cleanup_steps p
  | GAnalyze => steps_before_analyze p
  end.

(** The specification's staleness condition: the watermark is absent, or
    watermark + interval <= now. *)
Definition spec_interval_due (last : option datetime) (days : option Z)
    (now : datetime) : Prop :=
  last = None \/
  exists l d, last = Some l /\ days = Some d /\
              l + d * microseconds_per_day <= now.

(** The data model of the specification: watermarks are timestamps, and
    intervals are not negative. *)
Definition well_formed_policy (p : MaintenanceProperties) : Prop :=
  (forall l, last_optimized_on p = Some l -> valid_datetime l) /\
  (forall l, last_analyzed_on p = Some l -> valid_datetime l) /\
  (forall d, days_to_optimize p = Some d -> 0 <= d) /\
  (forall d, days_to_analyze p = Some d -> 0 <= d).

(** The statements [execute] can send for a policy, in the order of the
    source. *)
Definition cleanup_statements (p : MaintenanceProperties) : list statement :=
  [RemoveOrphanFiles (table_name p) (retention_days_orphan_files p);
   ExpireSnapshots (table_name p) (retention_days_snapshots p)].

Definition gated_statements (op : gated_operation) (p : MaintenanceProperties)
  : list statement :=
  [action op p; bookkeeping op p].

Definition statements_of (p : MaintenanceProperties) : list statement :=
  cleanup_statements p ++ gated_statements GOptimize p ++ gated_statements GAnalyze p.

(** [subseq l1 l2]: [l1] is [l2] with some elements left out. *)
Inductive subseq {A : Type} : list A -> list A -> Prop :=
| subseq_nil : subseq [] []
| subseq_skip (x : A) (l1 l2 : list A) : subseq l1 l2 -> subseq l1 (x :: l2)
| subseq_keep (x : A) (l1 l2 : list A) : subseq l1 l2 -> subseq (x :: l1) (x :: l2).

(** A run followed by another. *)
Definition prepend {W E A : Type} (tr : list event) (r : run_result W E A)
  : run_result W E A :=
  mkRun (final r) (tr ++ trace r) (value r).

Definition wrap (p : MaintenanceProperties) {A : Type} (r : result exn A)
  : result MaintenanceTaskException A :=
  match r with
  | Ok a => Ok a
  | Raised e => Raised (mkTaskException p e)
  end.

Definition is_ok {E A : Type} (r : result E A) : bool :=
  match r with
  | Ok _ => true
  | Raised _ => false
  end.

(** Failures within a trace: no statement failed; and no statement was sent
    after one that failed. *)
Fixpoint no_failure (tr : list event) : bool :=
  match tr with
  | [] => true
  | EvExecute _ (Some _) :: _ => false
  | _ :: rest => no_failure rest
  end.

Fixpoint stops_at_failure (tr : list event) : Prop :=
  match tr with
  | [] => True
  | EvExecute _ (Some _) :: rest => issued rest = []
  | _ :: rest => stops_at_failure rest
  end.

Fixpoint first_failure (tr : list event) : option exn :=
  match tr with
  | [] => None
  | EvExecute _ (Some e) :: _ => Some e
  | _ :: rest => first_failure rest
  end.

(** A task that stops at the first statement the engine refuses, and raises
    what the engine raised. *)
Definition fail_fast {W A : Type} (eng : Engine W) (t : task exn A) : Prop :=
  forall w,
    stops_at_failure (trace (run eng t w)) /\
    (is_ok (value (run eng t w)) = true -> no_failure (trace (run eng t w)) = true) /\
    (forall e, first_failure (trace (run eng t w)) = Some e ->
               value (run eng t w) = Raised e).

(** Every bookkeeping statement of a trace comes right after the success of
    its action; [prev] is the event before the trace. *)
Fixpoint bookkeeping_follows_success (p : MaintenanceProperties)
    (prev : option event) (tr : list event) : Prop :=
  match tr with
  | [] => True
  | ev :: rest =>
      (forall op r, ev = EvExecute (bookkeeping op p) r ->
                    prev = Some (EvExecute (action op p) None)) /\
      bookkeeping_follows_success p (Some ev) rest
  end.

Definition follows_success {W E A : Type} (eng : Engine W)
    (p : MaintenanceProperties) (t : task E A) : Prop :=
  forall w prev, bookkeeping_follows_success p prev (trace (run eng t w)).

(** Two rows that differ at most in their watermarks. *)
Definition same_but_watermarks (old new : MaintenanceProperties) : Prop :=
  table_name new = table_name old /\
  should_analyze new = should_analyze old /\
  days_to_analyze new = days_to_analyze old /\
  columns_to_analyze new = columns_to_analyze old /\
  should_optimize new = should_optimize old /\
  days_to_optimize new = days_to_optimize old /\
  should_expire_snapshots new = should_expire_snapshots old /\
  retention_days_snapshots new = retention_days_snapshots old /\
  should_remove_orphan_files new = should_remove_orphan_files old /\
  retention_days_orphan_files new = retention_days_orphan_files old.

(** What a statement of the task of [p], run at engine time [ts], may do to
    a row: nothing, or, in a row of [p]'s table, move one watermark to
    [ts]. *)
Definition row_frame (p : MaintenanceProperties) (ts : datetime)
    (old new : MaintenanceProperties) : Prop :=
  same_but_watermarks old new /\
  (new = old \/
   table_name old = table_name p /\
   ((last_optimized_on new = Some ts /\ last_analyzed_on new = last_analyzed_on old) \/
    (last_analyzed_on new = Some ts /\ last_optimized_on new = last_optimized_on old))).

(** A row with the fields of one operation replaced. *)
Definition set_optimize_fields (last : option datetime) (days : option Z)
    (p : MaintenanceProperties) : MaintenanceProperties :=
  mkProps (table_name p) (should_analyze p) (last_analyzed_on p)
          (days_to_analyze p) (columns_to_analyze p) (should_optimize p)
          last days (should_expire_snapshots p)
          (retention_days_snapshots p) (should_remove_orphan_files p)
          (retention_days_orphan_files p).

Definition set_analyze_fields (last : option datetime) (days : option Z)
    (columns : option (list string)) (p : MaintenanceProperties)
  : MaintenanceProperties :=
  mkProps (table_name p) (should_analyze p) last days columns
          (should_optimize p) (last_optimized_on p) (days_to_optimize p)
          (should_expire_snapshots p) (retention_days_snapshots p)
          (should_remove_orphan_files p) (retention_days_orphan_files p).

Definition set_retention_days_snapshots (days : option Z)
    (p : MaintenanceProperties) : MaintenanceProperties :=
  mkProps (table_name p) (should_analyze p) (last_analyzed_on p)
          (days_to_analyze p) (columns_to_analyze p) (should_optimize p)
          (last_optimized_on p) (days_to_optimize p) (should_expire_snapshots p)
          days (should_remove_orphan_files p) (retention_days_orphan_files p).

Definition set_retention_days_orphan_files (days : option Z)
    (p : MaintenanceProperties) : MaintenanceProperties :=
  mkProps (table_name p) (should_analyze p) (last_analyzed_on p)
          (days_to_analyze p) (columns_to_analyze p) (should_optimize p)
          (last_optimized_on p) (days_to_optimize p) (should_expire_snapshots p)
          (retention_days_snapshots p) (should_remove_orphan_files p) days.

(** The kinds of statement. *)
Definition is_remove_orphan_files (s : statement) : bool :=
  match s with
  | RemoveOrphanFiles _ _ => true
  | _ => false
  end.

Definition is_expire_snapshots (s : statement) : bool :=
  match s with
  | ExpireSnapshots _ _ => true
  | _ => false
  end.

Definition is_optimize (s : statement) : bool :=
  match s with
  | Optimize _ | UpdateLastOptimizedOn _ => true
  | _ => false
  end.

Definition is_analyze (s : statement) : bool :=
  match s with
  | Analyze _ _ | UpdateLastAnalyzedOn _ => true
  | _ => false
  end.

(** A future of the task of [p]: however it ends, it returns or raises a
    [MaintenanceTaskException] carrying [p]. *)
Fixpoint wraps_policy (p : MaintenanceProperties) (f : future) : Prop :=
  match f with
  | Ret _ => True
  | Raise e => e = mkTaskException p (cause e)
  | Connect k => forall r, wraps_policy p (k r)
  | Release k => wraps_policy p k
  | Execute _ k => forall r, wraps_policy p (k r)
  | Now k => forall n, wraps_policy p (k n)
  end.

(** What holds of the pool all along: the futures are those of the rows;
    a future is recorded as completed, once and with its own result,
    exactly when it has finished. *)
Definition pool_invariant {W : Type} (rows : list MaintenanceProperties)
    (st : pool W) : Prop :=
  Forall2 wraps_policy rows (futures st) /\
  NoDup (map fst (completed st)) /\
  (forall j r, In (j, r) (completed st) ->
               nth_error (futures st) j = Some (settled r)) /\
  (forall j f, nth_error (futures st) j = Some f -> finished f = true ->
               In j (map fst (completed st))).

Definition all_finished {W : Type} (st : pool W) : Prop :=
  Forall (fun f => finished f = true) (futures st).

(** The calls of a cycle, in the order in which the engine answered them,
    each with the index of the task that made it.
    [engine_calls eng w calls w']: from the world [w] the engine was asked
    exactly these calls, one after the other, each at the world the one
    before had left; it gave the answers written in them and was left in
    [w']. *)
Inductive engine_calls {W : Type} (eng : Engine W)
  : W -> list (nat * event) -> W -> Prop :=
| calls_done w :
    engine_calls eng w [] w
| calls_connect j w calls w' :
    engine_calls eng (fst (connection_factory eng w)) calls w' ->
    engine_calls eng w
      ((j, EvConnect (snd (connection_factory eng w))) :: calls) w'
| calls_release j w calls w' :
    engine_calls eng (connection_exit eng w) calls w' ->
    engine_calls eng w ((j, EvRelease) :: calls) w'
| calls_execute j s w calls w' :
    engine_calls eng (fst (cursor_execute eng s w)) calls w' ->
    engine_calls eng w
      ((j, EvExecute s (snd (cursor_execute eng s w))) :: calls) w'
| calls_now j w calls w' :
    engine_calls eng w calls w' ->
    engine_calls eng w ((j, EvNow (datetime_now eng w)) :: calls) w'.

(** The calls of task [j] among them. *)
Definition calls_of (j : nat) (calls : list (nat * event)) : list event :=
  map snd (filter (fun c => Nat.eqb (fst c) j) calls).

(** [residual t tr t']: the task [t], having made the calls [tr] one after
    the other and received the answers written in them, has [t'] left to
    do. With [t'] a [settled] result, [tr] is all [t] did and the result
    is how it ended. *)
Inductive residual {E A : Type} : task E A -> list event -> task E A -> Prop :=
| residual_here t :
    residual t [] t
| residual_connect k r tr t' :
    residual (k r) tr t' -> residual (Connect k) (EvConnect r :: tr) t'
| residual_release k tr t' :
    residual k tr t' -> residual (Release k) (EvRelease :: tr) t'
| residual_execute s k r tr t' :
    residual (k r) tr t' -> residual (Execute s k) (EvExecute s r :: tr) t'
| residual_now k n tr t' :
    residual (k n) tr t' -> residual (Now k) (EvNow n :: tr) t'.

(** The calls made since the pool was set up in [w0] account for the pool:
    they lead the engine from [w0] to the world of the pool, and the calls
    of each task among them lead from [execute] of its row to its future. *)
Definition accounted {W : Type} (eng : Engine W)
    (rows : list MaintenanceProperties) (w0 : W) (calls : list (nat * event))
    (st : pool W) : Prop :=
  engine_calls eng w0 calls (world st) /\
  forall j f, nth_error (futures st) j = Some f ->
    exists p, nth_error rows j = Some p /\
              residual (execute p) (calls_of j calls) f.

(** The single-quoted literals of a statement text, in order. *)
Fixpoint scan_literals (s : string) (cur : option string) : list string :=
  match s with
  | EmptyString =>
      []
  | String c s' =>
      if Ascii.eqb c quote_char then
        match cur with
        | None => scan_literals s' (Some EmptyString)
        | Some lit => lit :: scan_literals s' None
        end
      else
        match cur with
        | None => scan_literals s' None
        | Some lit => scan_literals s' (Some (lit ++ String c EmptyString))
        end
  end.

Definition string_literals (s : string) : list string := scan_literals s None.

(** ** A small engine to run the script against

    Its world holds the clock, the rows of the policy table, whether the
    engine can be reached, and the statements it refuses. An accepted
    statement has its effect on the policy rows. *)

Module Demo.

Record world : Type := mkWorld {
  clock : datetime;
  store : policy_store;
  reachable : bool;
  refuses : statement -> bool
}.

(** The engine; [reading] is what it makes of a WHERE clause whose name
    holds a quote. *)
Definition engine_reading (reading : clause_reading) : Engine world :=
  mkEngine world
    (fun w => if reachable w then (w, None)
              else (w, Some (EngineError "unreachable")))
    (fun w => w)
    (fun s w =>
       if refuses w s then (w, Some (EngineError "refused"))
       else (mkWorld (clock w) (store_effect reading s (clock w) (store w))
                     (reachable w) (refuses w), None))
    clock
    (fun w => (w, Ok (store w))).

(** An engine on which such a clause selects no row. *)
Definition selects_none : clause_reading := fun _ _ => false.

Definition engine : Engine world := engine_reading selects_none.

(** A table name with a quote in it. With it the optimize statement is
    [ALTER TABLE t /*' OR 1=1 OR table_name='*/ EXECUTE optimize], a
    statement on the table [t] that holds a comment, and the clause of the
    UPDATE is [WHERE table_name = 't /*' OR 1=1 OR table_name='*/']: a
    comparison with the literal ['t /*'], or [1=1], or a comparison with
    the literal ['*/']. SQL reads it as true of every row. *)
Definition crafted_name : string := "t /*' OR 1=1 OR table_name='*/".

Definition sql_reading : clause_reading :=
  fun t _ => String.eqb t crafted_name.

(** The row of [test_optimize]:
    [(table_name, should_optimize, days_to_optimize) VALUES (t, 1, 10)]. *)
Definition optimize_row (t : string) (last : option datetime)
  : MaintenanceProperties :=
  mkProps t None None None None (Some 1) last (Some 10) None None None None.

(** The row of [test_analyze_with_colums], with a watermark. *)
Definition analyze_row (t : string) (last : option datetime)
    (columns : option (list string)) : MaintenanceProperties :=
  mkProps t (Some 1) last (Some 10) columns None None None None None None None.

(** Every operation enabled. *)
Definition full_row (t : string) : MaintenanceProperties :=
  mkProps t (Some 1) None (Some 10) (Some ["a"; "b"]) (Some 1) None (Some 10)
          (Some 1) (Some 7) (Some 1) (Some 7).

(** A row whose optimize flag is 0. *)
Definition paused_row (t : string) (last : option datetime)
  : MaintenanceProperties :=
  mkProps t None None None None (Some 0) last (Some 10) None None None None.

Definition accepts_all (s : statement) : bool := false.

Definition refuses_table (t : string) (s : statement) : bool :=
  String.eqb (statement_table s) t.

Definition is_optimize_command (s : statement) : bool :=
  match s with
  | Optimize _ => true
  | _ => false
  end.

(** Noon of some day, a thousand days after [datetime.min]. *)
Definition noon : datetime := 1000 * microseconds_per_day + 43200000000.

Definition at_time (now : datetime) (rows : policy_store)
    (bad : statement -> bool) : world :=
  mkWorld now rows true bad.

(** Two rows; an engine that refuses every statement on the first table,
    and one that accepts everything. *)
Definition two_rows : policy_store := [full_row "t1"; optimize_row "t2" None].

Definition world_refusing_t1 : world := at_time noon two_rows (refuses_table "t1").

Definition world_accepting : world := at_time noon two_rows accepts_all.

End Demo.

(** ** More of the script *)

(** *** The pool, seen from outside *)

Definition pool_after {W : Type} (eng : Engine W) (max_workers : Z)
    (schedule : list nat) (st : pool W) : pool W :=
  fold_left (fun s j => pool_step eng max_workers j s) schedule st.

(** A pool of one future that is still heading for the end of [f0] run
    from [w0]. *)
Definition single_pool {W : Type} (eng : Engine W) (f0 : future) (w0 : W)
    (st : pool W) : Prop :=
  exists f,
    futures st = [f] /\
    value (run eng f (world st)) = value (run eng f0 w0) /\
    final (run eng f (world st)) = final (run eng f0 w0) /\
    completed st = match result_of f with
                   | Some r => [(0%nat, r)]
                   | None => []
                   end.

(** The events of the body of the [with] block: statements and clock
    readings. *)
Definition body_event (ev : event) : bool :=
  match ev with
  | EvExecute _ _ | EvNow _ => true
  | EvConnect _ | EvRelease => false
  end.

(** The row as the bookkeeping statement of an operation leaves it. *)
Definition set_watermark (op : gated_operation) (ts : datetime)
    (p : MaintenanceProperties) : MaintenanceProperties :=
  match op with
  | GOptimize => set_last_optimized_on ts p
  | GAnalyze => set_last_analyzed_on ts p
  end.

(** *** Engines that keep the policy table as SQL says

    [store_of] reads the rows of the policy table off the world. Opening
    and leaving a connection and reading the table change no row; a
    statement either changes none (it was refused, or it is no update) or
    acts as [store_effect] says at some engine timestamp, under some
    reading of its WHERE clause. *)
Record keeps_policy_table {W : Type} (eng : Engine W)
    (store_of : W -> policy_store) : Prop := mkKeeps {
  connect_keeps : forall w, store_of (fst (connection_factory eng w)) = store_of w;
  exit_keeps : forall w, store_of (connection_exit eng w) = store_of w;
  fetch_keeps : forall w, store_of (fst (fetch_policies eng w)) = store_of w;
  execute_acts :
    forall s w,
      store_of (fst (cursor_execute eng s w)) = store_of w \/
      exists reading ts, store_of (fst (cursor_execute eng s w)) =
                         store_effect reading s ts (store_of w)
}.

(** A row after the task of [p]: its watermarks apart it is as before, and
    it is as before altogether unless it is a row of [p]'s table. *)
Definition own_watermarks_only (p : MaintenanceProperties)
    (old new : MaintenanceProperties) : Prop :=
  same_but_watermarks old new /\
  (table_name old <> table_name p -> new = old).

(** A task all of whose statements satisfy [Q]. *)
Fixpoint sends_only {E A : Type} (Q : statement -> Prop) (t : task E A) : Prop :=
  match t with
  | Ret _ | Raise _ => True
  | Connect k => forall r, sends_only Q (k r)
  | Release k => sends_only Q k
  | Execute s k => Q s /\ forall r, sends_only Q (k r)
  | Now k => forall n, sends_only Q (k n)
  end.

(** *** [MaintenanceProperties.from_row] and the policy table

    A value of a result row, as the client hands it over. *)
Inductive pyval : Type :=
| PyNone
| PyInt (z : Z)
| PyStr (s : string)
| PyDatetime (t : datetime)
| PyList (l : list string).

(** The fields of the [NamedTuple], in the order of the class body. *)
Definition field_names : list string :=
  ["table_name"; "should_analyze"; "last_analyzed_on"; "days_to_analyze";
   "columns_to_analyze"; "should_optimize"; "last_optimized_on";
   "days_to_optimize"; "should_expire_snapshots"; "retention_days_snapshots";
   "should_remove_orphan_files"; "retention_days_orphan_files"]%string.

(** [cls] applied to the unpacked row: the values are bound to the fields
    by position; too few or
    too many of them is a [TypeError]. The instance is the fields with
    their values. *)
Definition from_row (row : list pyval) : result exn (list (string * pyval)) :=
  if Nat.eqb (List.length row) (List.length field_names)
  then Ok (combine field_names row)
  else Raised TypeError.

Fixpoint getattr (name : string) (instance : list (string * pyval))
  : option pyval :=
  match instance with
  | [] => None
  | (f, v) :: rest => if String.eqb f name then Some v else getattr name rest
  end.

(** The columns of the statement of [create_if_not_exists_management_table]
    in [__main__.py], line by line: name, type, NOT NULL. *)
Record column : Type := mkColumn {
  column_name : string;
  column_type : string;
  not_null : bool
}.

Definition management_table_columns : list column :=
  [mkColumn "table_name" "VARCHAR" true;
   mkColumn "should_analyze" "INTEGER" false;
   mkColumn "last_analyzed_on" "TIMESTAMP(6)" false;
   mkColumn "days_to_analyze" "INTEGER" false;
   mkColumn "columns_to_analyze" "ARRAY(VARCHAR)" false;
   mkColumn "should_optimize" "INTEGER" false;
   mkColumn "last_optimized_on" "TIMESTAMP(6)" false;
   mkColumn "days_to_optimize" "INTEGER" false;
   mkColumn "should_expire_snapshots" "INTEGER" false;
   mkColumn "retention_days_snapshots" "INTEGER" false;
   mkColumn "should_remove_orphan_files" "INTEGER" false;
   mkColumn "retention_days_orphan_files" "INTEGER" false]%string.

(** A row of [SELECT * FROM <policy table>]: the values of the table's
    columns, in the order of the table's definition. *)
Definition select_star (columns : list column) (r : string -> pyval)
  : list pyval :=
  map (fun c => r (column_name c)) columns.

(** *** [get_trino_connection] of [__main__.py]

    The arguments it passes to [connect]. [int_of_str] stands for Python's
    [int] on a string. *)
Definition environment := string -> option string.

Definition getenv (env : environment) (name default : string) : string :=
  match env name with
  | Some v => v
  | None => default
  end.

Record connect_arguments : Type := mkConnect {
  arg_host : string;
  arg_port : Z;
  arg_user : string;
  arg_auth : option (string * string);
  arg_catalog : string;
  arg_schema : string;
  arg_http_scheme : string
}.

Definition get_trino_connection (int_of_str : string -> option Z)
    (env : environment) : result exn connect_arguments :=
  let user := getenv env "TRINO_USER" "admin" in
  let password := env "TRINO_PASSWORD"%string in
  let host := getenv env "TRINO_HOST" "localhost" in
  let port :=
    match env "TRINO_PORT"%string with
    | Some s => int_of_str s
    | None => Some 8080
    end in
  let catalog := getenv env "TRINO_CATALOG" "iceberg" in
  let schema := getenv env "TRINO_SCHEMA" "default" in
  match port with
  | None => Raised ValueError
  | Some n =>
      Ok (mkConnect host n user
            (match password with
             | Some pw => Some (user, pw)
             | None => None
             end)
            catalog schema
            (match password with
             | Some _ => "https"
             | None => "http"
             end)%string)
  end.

(** *** [MaintenanceTask.execute] of the single-file script

    It differs from the tested variant in the due-checks ([NonTest]) and in
    the ANALYZE statement: [len(columns_to_analyze)] with no test for
    [None], and a clause that joins the bare names. *)
Module SingleFile.

Definition with_columns (columns : option (list string)) : result exn string :=
  match columns with
  | None => Raised TypeError
  | Some [] => Ok EmptyString
  | Some cs => Ok (" WITH (" ++ String.concat ", " cs ++ ")")%string
  end.

Definition optimize_step (p : MaintenanceProperties) : task exn unit :=
  due <- NonTest.optimize_due p ;;
  if due : bool
  then cur_execute (Optimize (table_name p)) ;;
       cur_execute (UpdateLastOptimizedOn (table_name p))
  else Ret tt.

Definition analyze_step (p : MaintenanceProperties) : task exn unit :=
  due <- NonTest.analyze_due p ;;
  if due : bool
  then clause <- lift (with_columns (columns_to_analyze p)) ;;
       cur_execute (Analyze (table_name p) clause) ;;
       cur_execute (UpdateLastAnalyzedOn (table_name p))
  else Ret tt.

Definition maintenance_steps (p : MaintenanceProperties) : task exn unit :=
  ((remove_orphan_files_step p ;; expire_snapshots_step p) ;;
   optimize_step p) ;;
  analyze_step p.

Definition execute (p : MaintenanceProperties)
  : task MaintenanceTaskException unit :=
  try_except (with_connection (maintenance_steps p))
             (fun e => Raise (mkTaskException p e)).

End SingleFile.

(** * Properties *)

Open Scope list_scope.

(** ** Sequences of statements *)

Lemma subseq_nil_l {A : Type} (l : list A) : subseq [] l.
Proof.
  induction l as [| x l IH]; [apply subseq_nil | apply subseq_skip, IH].
Qed.

Lemma subseq_refl {A : Type} (l : list A) : subseq l l.
Proof.
  induction l as [| x l IH]; [apply subseq_nil | apply subseq_keep, IH].
Qed.

Lemma subseq_app {A : Type} (l1 l2 m1 m2 : list A) :
  subseq l1 l2 -> subseq m1 m2 -> subseq (l1 ++ m1) (l2 ++ m2).
Proof.
  intros H1 H2. induction H1 as [| x l1 l2 _ IH | x l1 l2 _ IH]; simpl.
  - exact H2.
  - apply subseq_skip, IH.
  - apply subseq_keep, IH.
Qed.

Lemma subseq_In {A : Type} (l1 l2 : list A) (x : A) :
  subseq l1 l2 -> In x l1 -> In x l2.
Proof.
  intros H. induction H as [| y l1 l2 _ IH | y l1 l2 _ IH]; simpl; intros Hin.
  - exact Hin.
  - right. apply IH, Hin.
  - destruct Hin as [-> | Hin]; [left; reflexivity | right; apply IH, Hin].
Qed.

Lemma issued_app (tr1 tr2 : list event) :
  issued (tr1 ++ tr2) = issued tr1 ++ issued tr2.
Proof.
  induction tr1 as [| ev tr1 IH]; simpl; [reflexivity |].
  destruct ev; simpl; rewrite IH; reflexivity.
Qed.

(** ** Runs of composed tasks *)

Section Runs.

Context {W : Type} (eng : Engine W).

Lemma run_bind {E A B : Type} (t : task E A) (f : A -> task E B) (w : W) :
  run eng (bind t f) w =
  match value (run eng t w) with
  | Ok a => prepend (trace (run eng t w)) (run eng (f a) (final (run eng t w)))
  | Raised e => mkRun (final (run eng t w)) (trace (run eng t w)) (Raised e)
  end.
Proof.
  revert w.
  induction t as [a | e | k IH | k IH | s k IH | k IH]; intros w; simpl.
  - destruct (run eng (f a) w); reflexivity.
  - reflexivity.
  - destruct (connection_factory eng w) as [w' r].
    rewrite IH. unfold after, prepend; simpl.
    destruct (value (run eng (k r) w')); reflexivity.
  - rewrite IH. unfold after, prepend; simpl.
    destruct (value (run eng k (connection_exit eng w))); reflexivity.
  - destruct (cursor_execute eng s w) as [w' r].
    rewrite IH. unfold after, prepend; simpl.
    destruct (value (run eng (k r) w')); reflexivity.
  - rewrite IH. unfold after, prepend; simpl.
    destruct (value (run eng (k (datetime_now eng w)) w)); reflexivity.
Qed.

Lemma run_releasing {E A : Type} (t : task E A) (w : W) :
  run eng (releasing t) w =
  mkRun (connection_exit eng (final (run eng t w)))
        (trace (run eng t w) ++ [EvRelease])
        (value (run eng t w)).
Proof.
  revert w.
  induction t as [a | e | k IH | k IH | s k IH | k IH]; intros w; simpl.
  - reflexivity.
  - reflexivity.
  - destruct (connection_factory eng w) as [w' r]. rewrite IH. reflexivity.
  - rewrite IH. reflexivity.
  - destruct (cursor_execute eng s w) as [w' r]. rewrite IH. reflexivity.
  - rewrite IH. reflexivity.
Qed.

Lemma run_wrap {A : Type} (p : MaintenanceProperties) (t : task exn A) (w : W) :
  run eng (try_except t (fun e => Raise (mkTaskException p e))) w =
  mkRun (final (run eng t w)) (trace (run eng t w)) (wrap p (value (run eng t w))).
Proof.
  revert w.
  induction t as [a | e | k IH | k IH | s k IH | k IH]; intros w; simpl.
  - reflexivity.
  - reflexivity.
  - destruct (connection_factory eng w) as [w' r]. rewrite IH. reflexivity.
  - rewrite IH. reflexivity.
  - destruct (cursor_execute eng s w) as [w' r]. rewrite IH. reflexivity.
  - rewrite IH. reflexivity.
Qed.

(** [execute] when the connection cannot be opened, and when it can. *)
Lemma run_execute_offline (p : MaintenanceProperties) (w w1 : W) (e : exn) :
  connection_factory eng w = (w1, Some e) ->
  run eng (execute p) w =
  mkRun w1 [EvConnect (Some e)] (Raised (mkTaskException p e)).
Proof.
  intros Hc. unfold execute. rewrite run_wrap.
  unfold with_connection. simpl. rewrite Hc. reflexivity.
Qed.

Lemma run_execute_online (p : MaintenanceProperties) (w w1 : W) :
  connection_factory eng w = (w1, None) ->
  run eng (execute p) w =
  mkRun (connection_exit eng (final (run eng (maintenance_steps p) w1)))
        (EvConnect None :: trace (run eng (maintenance_steps p) w1) ++ [EvRelease])
        (wrap p (value (run eng (maintenance_steps p) w1))).
Proof.
  intros Hc. unfold execute. rewrite run_wrap.
  unfold with_connection. simpl. rewrite Hc.
  rewrite run_releasing. reflexivity.
Qed.

End Runs.

(** ** The blocks of [execute] *)

Section Blocks.

Context {W : Type} (eng : Engine W).

Lemma run_cur_execute (s : statement) (w : W) :
  run eng (cur_execute s) w =
  mkRun (fst (cursor_execute eng s w))
        [EvExecute s (snd (cursor_execute eng s w))]
        (match snd (cursor_execute eng s w) with
         | None => Ok tt
         | Some e => Raised e
         end).
Proof.
  unfold cur_execute. simpl.
  destruct (cursor_execute eng s w) as [w' [e |]]; reflexivity.
Qed.

(** [last + timedelta(days=d)] for a watermark and an interval of the data
    model: the sum, or an exception when the sum lies beyond [datetime.max]
    (and so beyond any reading of the clock). *)
Lemma due_at_in_range (l d now : Z) :
  valid_datetime l -> 0 <= d -> valid_datetime now ->
  match timedelta (Some d) with
  | Ok delta =>
      match datetime_add l delta with
      | Ok t => t = l + d * microseconds_per_day
      | Raised _ => now < l + d * microseconds_per_day
      end
  | Raised _ => now < l + d * microseconds_per_day
  end.
Proof.
  unfold valid_datetime, timedelta, datetime_add.
  intros Hl Hd Hn.
  assert (Hday : microseconds_per_day = 86400000000) by reflexivity.
  assert (Hmax : datetime_max = 3652059 * 86400000000 - 1) by reflexivity.
  assert (Hcap : timedelta_max_days = 999999999) by reflexivity.
  destruct (Z.leb_spec (Z.abs d) timedelta_max_days) as [Ha | Ha].
  - cbv zeta.
    destruct (Z.leb_spec 0 (l + d * microseconds_per_day)) as [H0 | H0];
      destruct (Z.leb_spec (l + d * microseconds_per_day) datetime_max) as [H1 | H1];
      cbn [andb]; try reflexivity; nia.
  - nia.
Qed.

(** The staleness test sends nothing, leaves the world as it is, and says
    yes exactly on the specification's condition. *)
Lemma run_interval_elapsed (last : option datetime) (days : option Z) (w : W) :
  (forall l, last = Some l -> valid_datetime l) ->
  (forall d, days = Some d -> 0 <= d) ->
  valid_datetime (datetime_now eng w) ->
  final (run eng (interval_elapsed last days) w) = w /\
  issued (trace (run eng (interval_elapsed last days) w)) = [] /\
  (value (run eng (interval_elapsed last days) w) = Ok true <->
   spec_interval_due last days (datetime_now eng w)).
Proof.
  intros Hl Hd Hn. unfold interval_elapsed, spec_interval_due.
  destruct last as [l |].
  2:{ cbn [run final trace value issued]. repeat split; auto. }
  specialize (Hl l eq_refl).
  destruct days as [d |].
  2:{ cbn [timedelta lift bind run final trace value issued].
      repeat split; try discriminate.
      intros [H | (l' & d' & _ & H & _)]; discriminate. }
  specialize (Hd d eq_refl).
  pose proof (due_at_in_range l d _ Hl Hd Hn) as Hsum.
  destruct (timedelta (Some d)) as [delta | e]; cbn [lift bind].
  - destruct (datetime_add l delta) as [t | e]; cbn [lift bind].
    + cbn [run after final trace value issued]. subst t.
      repeat split; auto.
      * intros H. right. exists l, d. repeat split; auto.
        injection H as H. apply Z.leb_le in H. exact H.
      * intros [H | (l' & d' & H1 & H2 & H3)]; [discriminate |].
        injection H1 as <-. injection H2 as <-.
        f_equal. apply Z.leb_le. exact H3.
    + cbn [run final trace value issued].
      repeat split; try discriminate.
      intros [H | (l' & d' & H1 & H2 & H3)]; [discriminate |].
      injection H1 as <-. injection H2 as <-. lia.
  - cbn [run final trace value issued].
    repeat split; try discriminate.
    intros [H | (l' & d' & H1 & H2 & H3)]; [discriminate |].
    injection H1 as <-. injection H2 as <-. lia.
Qed.

Lemma issued_run_bind {E A B : Type} (t : task E A) (f : A -> task E B) (w : W) :
  issued (trace (run eng (bind t f) w)) =
  issued (trace (run eng t w)) ++
  match value (run eng t w) with
  | Ok a => issued (trace (run eng (f a) (final (run eng t w))))
  | Raised _ => []
  end.
Proof.
  rewrite run_bind. destruct (value (run eng t w)) as [a | e]; simpl.
  - apply issued_app.
  - symmetry. apply app_nil_r.
Qed.

(** A due-check sends nothing and leaves the world as it is. *)
Lemma interval_elapsed_silent (last : option datetime) (days : option Z) (w : W) :
  final (run eng (interval_elapsed last days) w) = w /\
  issued (trace (run eng (interval_elapsed last days) w)) = [].
Proof.
  unfold interval_elapsed. destruct last as [l |]; [| split; reflexivity].
  destruct (timedelta days) as [delta | e]; cbn [lift bind];
    [| split; reflexivity].
  destruct (datetime_add l delta) as [t | e]; cbn [lift bind];
    split; reflexivity.
Qed.

Lemma due_check_silent (op : gated_operation) (p : MaintenanceProperties) (w : W) :
  final (run eng (due_check op p) w) = w /\
  issued (trace (run eng (due_check op p) w)) = [].
Proof.
  destruct op; cbn [due_check]; unfold optimize_due, analyze_due;
    match goal with |- context [truthy ?f] => destruct (truthy f) end;
    try apply interval_elapsed_silent; split; reflexivity.
Qed.

Lemma run_due_check_disabled (op : gated_operation) (p : MaintenanceProperties)
    (w : W) :
  enabled op p = false ->
  run eng (due_check op p) w = mkRun w [] (Ok false).
Proof.
  destruct op; cbn [enabled due_check]; unfold optimize_due, analyze_due;
    intros ->; reflexivity.
Qed.

Lemma run_due_check (op : gated_operation) (p : MaintenanceProperties) (w : W) :
  well_formed_policy p ->
  valid_datetime (datetime_now eng w) ->
  enabled op p = true ->
  (value (run eng (due_check op p) w) = Ok true <->
   spec_interval_due (watermark op p) (interval_days op p) (datetime_now eng w)).
Proof.
  intros (Hlo & Hla & Hdo & Hda) Hn.
  destruct op; cbn [enabled due_check watermark interval_days];
    unfold optimize_due, analyze_due; intros ->;
    apply run_interval_elapsed; assumption.
Qed.

(** What a gated block sends: its action when the due-check says yes, and
    the bookkeeping statement when the action returned. *)
Lemma issued_gated_step (op : gated_operation) (p : MaintenanceProperties) (w : W) :
  issued (trace (run eng (gated_step op p) w)) =
  match value (run eng (due_check op p) w) with
  | Ok true =>
      action op p ::
      match snd (cursor_execute eng (action op p) w) with
      | None => [bookkeeping op p]
      | Some _ => []
      end
  | _ => []
  end.
Proof.
  destruct (due_check_silent op p w) as [Hw Hs].
  assert (Hstep : gated_step op p =
                  (due <- due_check op p ;;
                   if due : bool
                   then cur_execute (action op p) ;; cur_execute (bookkeeping op p)
                   else Ret tt)) by (destruct op; reflexivity).
  rewrite Hstep, issued_run_bind, Hs, Hw. cbn [app].
  destruct (value (run eng (due_check op p) w)) as [[|] | e]; try reflexivity.
  rewrite issued_run_bind, !run_cur_execute. cbn [trace value final issued app].
  destruct (snd (cursor_execute eng (action op p) w)); reflexivity.
Qed.

Lemma issued_remove_orphan_files_step (p : MaintenanceProperties) (w : W) :
  issued (trace (run eng (remove_orphan_files_step p) w)) =
  if truthy (should_remove_orphan_files p)
  then [RemoveOrphanFiles (table_name p) (retention_days_orphan_files p)]
  else [].
Proof.
  unfold remove_orphan_files_step.
  destruct (truthy (should_remove_orphan_files p)); [| reflexivity].
  rewrite run_cur_execute. reflexivity.
Qed.

Lemma issued_expire_snapshots_step (p : MaintenanceProperties) (w : W) :
  issued (trace (run eng (expire_snapshots_step p) w)) =
  if truthy (should_expire_snapshots p)
  then [ExpireSnapshots (table_name p) (retention_days_snapshots p)]
  else [].
Proof.
  unfold expire_snapshots_step.
  destruct (truthy (should_expire_snapshots p)); [| reflexivity].
  rewrite run_cur_execute. reflexivity.
Qed.

Lemma issued_cleanup_subseq (p : MaintenanceProperties) (w : W) :
  subseq (issued (trace (run eng (cleanup_steps p) w))) (cleanup_statements p).
Proof.
  unfold cleanup_steps, cleanup_statements.
  rewrite issued_run_bind, issued_remove_orphan_files_step.
  change [RemoveOrphanFiles (table_name p) (retention_days_orphan_files p);
          ExpireSnapshots (table_name p) (retention_days_snapshots p)]
    with ([RemoveOrphanFiles (table_name p) (retention_days_orphan_files p)]
          ++ [ExpireSnapshots (table_name p) (retention_days_snapshots p)]).
  apply subseq_app.
  - destruct (truthy (should_remove_orphan_files p));
      [apply subseq_refl | apply subseq_nil_l].
  - destruct (value (run eng (remove_orphan_files_step p) w));
      [| apply subseq_nil_l].
    rewrite issued_expire_snapshots_step.
    destruct (truthy (should_expire_snapshots p));
      [apply subseq_refl | apply subseq_nil_l].
Qed.

Lemma issued_gated_subseq (op : gated_operation) (p : MaintenanceProperties)
    (w : W) :
  subseq (issued (trace (run eng (gated_step op p) w))) (gated_statements op p).
Proof.
  rewrite issued_gated_step. unfold gated_statements.
  destruct (value (run eng (due_check op p) w)) as [[|] | e];
    try apply subseq_nil_l.
  apply subseq_keep.
  destruct (snd (cursor_execute eng (action op p) w));
    [apply subseq_nil_l | apply subseq_refl].
Qed.

Lemma issued_maintenance_subseq (p : MaintenanceProperties) (w : W) :
  subseq (issued (trace (run eng (maintenance_steps p) w))) (statements_of p).
Proof.
  unfold maintenance_steps, steps_before_analyze, statements_of.
  rewrite issued_run_bind, issued_run_bind, <- app_assoc.
  apply subseq_app; [apply issued_cleanup_subseq |].
  rewrite run_bind.
  destruct (value (run eng (cleanup_steps p) w)) as [[] | e];
    cbn [value final trace prepend app]; [| apply subseq_nil_l].
  apply subseq_app; [apply (issued_gated_subseq GOptimize) |].
  destruct (value (run eng (optimize_step p) _)) as [[] | e];
    cbn [value final trace prepend]; [| apply subseq_nil_l].
  apply (issued_gated_subseq GAnalyze).
Qed.

(** The statements of a whole [execute]. *)
Lemma issued_execute (p : MaintenanceProperties) (w : W) :
  issued (trace (run eng (execute p) w)) =
  match connection_factory eng w with
  | (w1, None) => issued (trace (run eng (maintenance_steps p) w1))
  | (_, Some _) => []
  end.
Proof.
  destruct (connection_factory eng w) as [w1 [e |]] eqn:Hc.
  - rewrite (run_execute_offline eng p w w1 e Hc). reflexivity.
  - rewrite (run_execute_online eng p w w1 Hc).
    cbn [trace issued]. rewrite issued_app. cbn [issued].
    apply app_nil_r.
Qed.

Lemma issued_execute_subseq (p : MaintenanceProperties) (w : W) :
  subseq (issued (trace (run eng (execute p) w))) (statements_of p).
Proof.
  rewrite issued_execute.
  destruct (connection_factory eng w) as [w1 [e |]];
    [apply subseq_nil_l | apply issued_maintenance_subseq].
Qed.

(** Once the blocks before a gated operation have returned, its action is
    among the statements of the whole body exactly when its own block sends
    it. *)
Lemma action_issued_at (op : gated_operation) (p : MaintenanceProperties)
    (w1 w2 : W) (tr : list event) :
  run eng (steps_before op p) w1 = mkRun w2 tr (Ok tt) ->
  (In (action op p) (issued (trace (run eng (maintenance_steps p) w1))) <->
   In (action op p) (issued (trace (run eng (gated_step op p) w2)))).
Proof.
  intros Hreach. unfold maintenance_steps. rewrite issued_run_bind.
  destruct op; cbn [steps_before gated_step action] in *.
  - unfold steps_before_analyze at 1 2. rewrite issued_run_bind, run_bind.
    pose proof (issued_cleanup_subseq p w1) as Hsub.
    rewrite Hreach in *. cbn [value final trace prepend] in *.
    rewrite !in_app_iff. split.
    + intros [[Hin | Hin] | Hin]; [| exact Hin |].
      * apply (subseq_In _ _ _ Hsub) in Hin.
        destruct Hin as [Hin | [Hin | []]]; discriminate.
      * destruct (value (run eng (optimize_step p) w2)) as [[] | e];
          [| destruct Hin].
        apply (subseq_In _ _ _ (issued_gated_subseq GAnalyze p _)) in Hin.
        destruct Hin as [Hin | [Hin | []]]; discriminate.
    + intros Hin. left. right. exact Hin.
  - pose proof (issued_maintenance_subseq p w1) as Hall.
    pose proof (issued_run_bind (cleanup_steps p) (fun _ => optimize_step p) w1)
      as Hbefore.
    fold (steps_before_analyze p) in Hbefore.
    assert (Hsub : subseq (issued (trace (run eng (steps_before_analyze p) w1)))
                          (cleanup_statements p ++ gated_statements GOptimize p)).
    { rewrite Hbefore. apply subseq_app; [apply issued_cleanup_subseq |].
      destruct (value (run eng (cleanup_steps p) w1)) as [[] | e];
        [apply (issued_gated_subseq GOptimize) | apply subseq_nil_l]. }
    rewrite Hreach in *. cbn [value final trace] in *.
    rewrite in_app_iff. split.
    + intros [Hin | Hin]; [| exact Hin].
      apply (subseq_In _ _ _ Hsub) in Hin.
      destruct Hin as [Hin | [Hin | [Hin | [Hin | []]]]]; discriminate.
    + intros Hin. right. exact Hin.
Qed.

End Blocks.

(** * The claims *)

(** C1. In the tested variant, with the operation's flag set, a gated
    operation (optimize, analyze) is sent to the engine in a cycle if and
    only if its watermark is absent or watermark + interval <= now, where now
    is the clock read by its due-check; at the boundary
    watermark + interval = now it is sent. The task is taken to have opened
    its connection and to have come through the blocks before the
    operation. *)
Theorem due_check_inclusive
    {W : Type} (eng : Engine W) (op : gated_operation)
    (p : MaintenanceProperties) (w w1 w2 : W) (tr : list event) :
  well_formed_policy p ->
  enabled op p = true ->
  connection_factory eng w = (w1, None) ->
  run eng (steps_before op p) w1 = mkRun w2 tr (Ok tt) ->
  valid_datetime (datetime_now eng w2) ->
  (In (action op p) (issued (trace (run eng (execute p) w))) <->
   spec_interval_due (watermark op p) (interval_days op p) (datetime_now eng w2))
  /\
  (forall l d,
     watermark op p = Some l -> interval_days op p = Some d ->
     l = datetime_now eng w2 - d * microseconds_per_day ->
     In (action op p) (issued (trace (run eng (execute p) w)))).
Proof.
  intros Hwf Hen Hc Hreach Hnow.
  assert (Hiff :
    In (action op p) (issued (trace (run eng (execute p) w))) <->
    spec_interval_due (watermark op p) (interval_days op p) (datetime_now eng w2)).
  { rewrite issued_execute, Hc.
    rewrite (action_issued_at eng op p w1 w2 tr Hreach).
    rewrite issued_gated_step.
    rewrite <- (run_due_check eng op p w2 Hwf Hnow Hen).
    destruct (value (run eng (due_check op p) w2)) as [[|] | e]; simpl.
    - split; [reflexivity | intros _; left; reflexivity].
    - split; [intros [] | discriminate].
    - split; [intros [] | discriminate]. }
  split; [exact Hiff |].
  intros l d Hl Hd Heq. apply Hiff. right. exists l, d.
  repeat split; [exact Hl | exact Hd | lia].
Qed.

Lemma due_check_inclusive_witness :
  In (Optimize "t1")
     (issued (trace (run Demo.engine
        (execute (Demo.optimize_row "t1"
                    (Some (Demo.noon - 10 * microseconds_per_day))))
        (Demo.at_time Demo.noon [] Demo.accepts_all)))).
Proof.
  refine (proj2 (due_check_inclusive Demo.engine GOptimize
                   (Demo.optimize_row "t1"
                      (Some (Demo.noon - 10 * microseconds_per_day)))
                   (Demo.at_time Demo.noon [] Demo.accepts_all)
                   (Demo.at_time Demo.noon [] Demo.accepts_all)
                   (Demo.at_time Demo.noon [] Demo.accepts_all)
                   [] _ eq_refl eq_refl eq_refl _)
                _ 10 eq_refl eq_refl eq_refl).
  - unfold well_formed_policy; simpl.
    split; [| split; [| split]]; intros x Hx; try discriminate;
      injection Hx as <-;
      unfold valid_datetime, datetime_max, Demo.noon, microseconds_per_day; lia.
  - unfold valid_datetime, datetime_max, Demo.noon, microseconds_per_day;
      simpl; lia.
Defined.

(** ** The two variants of the due-check *)

Lemma timedelta_in_range (l d : Z) :
  valid_datetime l -> valid_datetime (l + d * microseconds_per_day) ->
  timedelta (Some d) = Ok (d * microseconds_per_day) /\
  datetime_add l (d * microseconds_per_day) = Ok (l + d * microseconds_per_day).
Proof.
  unfold valid_datetime, timedelta, datetime_add. intros Hl Hs.
  assert (Hday : microseconds_per_day = 86400000000) by reflexivity.
  assert (Hmax : datetime_max = 3652059 * 86400000000 - 1) by reflexivity.
  assert (Hcap : timedelta_max_days = 999999999) by reflexivity.
  destruct (Z.leb_spec (Z.abs d) timedelta_max_days) as [Ha | Ha]; [| nia].
  split; [reflexivity |]. cbv zeta.
  destruct (Z.leb_spec 0 (l + d * microseconds_per_day)) as [H0 | H0]; [| lia].
  destruct (Z.leb_spec (l + d * microseconds_per_day) datetime_max) as [H1 | H1];
    [reflexivity | lia].
Qed.

Lemma run_due_checks_present {W : Type} (eng : Engine W) (op : gated_operation)
    (p : MaintenanceProperties) (w : W) (l d : Z) :
  enabled op p = true ->
  watermark op p = Some l -> interval_days op p = Some d ->
  valid_datetime l -> valid_datetime (l + d * microseconds_per_day) ->
  value (run eng (due_check op p) w) =
    Ok (l + d * microseconds_per_day <=? datetime_now eng w) /\
  value (run eng (nontest_due_check op p) w) =
    Ok (datetime_now eng w <? l + d * microseconds_per_day).
Proof.
  intros Hen Hl Hd Hvl Hvs.
  destruct (timedelta_in_range l d Hvl Hvs) as [Htd Hadd].
  destruct op; cbn [enabled watermark interval_days due_check nontest_due_check] in *;
    unfold optimize_due, analyze_due, NonTest.optimize_due, NonTest.analyze_due,
      interval_elapsed, NonTest.interval_elapsed;
    rewrite Hen, Hl, Hd, Htd; cbn [lift bind]; rewrite Hadd; cbn [lift bind];
    split; reflexivity.
Qed.

(** C2, as amended. With the flag set, the watermark present and
    watermark + interval a timestamp, the non-test variant says due exactly
    when the tested variant says not due; at watermark + interval = now the
    tested variant says due and the non-test variant says not due. With the
    flag unset both say not due, and with the flag set and the watermark
    absent both say due. *)
Theorem nontest_due_check_inverted_when_enabled
    {W : Type} (eng : Engine W) (op : gated_operation)
    (p : MaintenanceProperties) (w : W) :
  (enabled op p = true ->
   forall l d,
     watermark op p = Some l -> interval_days op p = Some d ->
     valid_datetime l -> valid_datetime (l + d * microseconds_per_day) ->
     exists due : bool,
       value (run eng (due_check op p) w) = Ok due /\
       value (run eng (nontest_due_check op p) w) = Ok (negb due) /\
       (due = true <-> l + d * microseconds_per_day <= datetime_now eng w) /\
       (l + d * microseconds_per_day = datetime_now eng w -> due = true))
  /\
  (enabled op p = false ->
   value (run eng (due_check op p) w) = Ok false /\
   value (run eng (nontest_due_check op p) w) = Ok false)
  /\
  (enabled op p = true -> watermark op p = None ->
   value (run eng (due_check op p) w) = Ok true /\
   value (run eng (nontest_due_check op p) w) = Ok true).
Proof.
  split; [| split].
  - intros Hen l d Hl Hd Hvl Hvs.
    destruct (run_due_checks_present eng op p w l d Hen Hl Hd Hvl Hvs)
      as [Htested Hnontest].
    exists (l + d * microseconds_per_day <=? datetime_now eng w).
    rewrite Htested, Hnontest. repeat split.
    + rewrite Z.ltb_antisym. reflexivity.
    + apply Z.leb_le.
    + apply Z.leb_le.
    + intros ->. apply Z.leb_refl.
  - destruct op; cbn [enabled due_check nontest_due_check];
      unfold optimize_due, analyze_due, NonTest.optimize_due, NonTest.analyze_due;
      intros ->; split; reflexivity.
  - destruct op; cbn [enabled watermark due_check nontest_due_check];
      unfold optimize_due, analyze_due, NonTest.optimize_due, NonTest.analyze_due;
      intros -> ->; split; reflexivity.
Qed.

Lemma nontest_due_check_inverted_witness :
  value (run Demo.engine
           (due_check GOptimize (Demo.optimize_row "t1" (Some (Demo.noon - 10 * microseconds_per_day))))
           (Demo.at_time Demo.noon [] Demo.accepts_all)) = Ok true /\
  value (run Demo.engine
           (nontest_due_check GOptimize (Demo.optimize_row "t1" (Some (Demo.noon - 10 * microseconds_per_day))))
           (Demo.at_time Demo.noon [] Demo.accepts_all)) = Ok false.
Proof.
  destruct (proj1 (nontest_due_check_inverted_when_enabled Demo.engine GOptimize
                     (Demo.optimize_row "t1" (Some (Demo.noon - 10 * microseconds_per_day)))
                     (Demo.at_time Demo.noon [] Demo.accepts_all))
                  eq_refl (Demo.noon - 10 * microseconds_per_day) 10
                  eq_refl eq_refl)
    as (due & Htested & Hnontest & _ & Hboundary).
  - unfold valid_datetime, datetime_max, Demo.noon, microseconds_per_day; lia.
  - unfold valid_datetime, datetime_max, Demo.noon, microseconds_per_day; lia.
  - rewrite Htested, Hnontest, (Hboundary eq_refl). split; reflexivity.
Defined.

(** C2 as stated fails where the flag is unset: the watermark is present,
    the tested variant says not due, and the non-test variant says not due
    as well, so the two agree. *)
Lemma nontest_due_check_not_inverted_when_disabled :
  watermark GOptimize (Demo.paused_row "t1" (Some Demo.noon)) = Some Demo.noon /\
  value (run Demo.engine (due_check GOptimize (Demo.paused_row "t1" (Some Demo.noon)))
             (Demo.at_time Demo.noon [] Demo.accepts_all)) = Ok false /\
  ~ (value (run Demo.engine
              (nontest_due_check GOptimize (Demo.paused_row "t1" (Some Demo.noon)))
              (Demo.at_time Demo.noon [] Demo.accepts_all)) = Ok true <->
     value (run Demo.engine
              (due_check GOptimize (Demo.paused_row "t1" (Some Demo.noon)))
              (Demo.at_time Demo.noon [] Demo.accepts_all)) = Ok false).
Proof.
  split; [reflexivity |]. split; [reflexivity |].
  intros [_ H]. specialize (H eq_refl). discriminate H.
Qed.

(** ** Order of the statements and failures *)

Lemma quiet_trace (tr : list event) :
  issued tr = [] ->
  no_failure tr = true /\ stops_at_failure tr /\ first_failure tr = None.
Proof.
  induction tr as [| ev tr IH]; [repeat split |].
  destruct ev as [r | | s r | t]; simpl; try exact IH. discriminate.
Qed.

Lemma no_failure_first_failure (tr : list event) :
  no_failure tr = true -> first_failure tr = None.
Proof.
  induction tr as [| ev tr IH]; [reflexivity |].
  destruct ev as [r | | s [e |] | t]; simpl; auto. discriminate.
Qed.

Lemma first_failure_app (tr1 tr2 : list event) :
  first_failure (tr1 ++ tr2) =
  match first_failure tr1 with
  | Some e => Some e
  | None => first_failure tr2
  end.
Proof.
  induction tr1 as [| ev tr1 IH]; [reflexivity |].
  destruct ev as [r | | s [e |] | t]; simpl; auto.
Qed.

Lemma first_failure_split (pre post : list event) (s : statement) (e : exn) :
  stops_at_failure (pre ++ EvExecute s (Some e) :: post) ->
  first_failure (pre ++ EvExecute s (Some e) :: post) = Some e.
Proof.
  induction pre as [| ev pre IH]; simpl; [reflexivity |].
  destruct ev as [r | | s' [e' |] | t]; auto.
  rewrite issued_app. simpl. intros H.
  apply app_eq_nil in H. destruct H as [_ H]. discriminate H.
Qed.

Lemma no_failure_app (tr1 tr2 : list event) :
  no_failure (tr1 ++ tr2) = no_failure tr1 && no_failure tr2.
Proof.
  induction tr1 as [| ev tr1 IH]; [reflexivity |].
  destruct ev as [r | | s [e |] | t]; simpl; auto.
Qed.

Lemma stops_at_failure_app (tr1 tr2 : list event) :
  no_failure tr1 = true -> stops_at_failure tr2 -> stops_at_failure (tr1 ++ tr2).
Proof.
  intros H1 H2. induction tr1 as [| ev tr1 IH]; [exact H2 |].
  destruct ev as [r | | s [e |] | t]; simpl in *; auto. discriminate.
Qed.

Lemma stops_at_failure_quiet (tr1 tr2 : list event) :
  stops_at_failure tr1 -> issued tr2 = [] -> stops_at_failure (tr1 ++ tr2).
Proof.
  intros H1 H2. induction tr1 as [| ev tr1 IH]; simpl.
  - apply (quiet_trace _ H2).
  - destruct ev as [r | | s [e |] | t]; simpl in *; auto.
    rewrite issued_app, H1, H2. reflexivity.
Qed.

Lemma stops_at_failure_split (pre post : list event) (s : statement) (e : exn) :
  stops_at_failure (pre ++ EvExecute s (Some e) :: post) -> issued post = [].
Proof.
  induction pre as [| ev pre IH]; simpl; [auto |].
  destruct ev as [r | | s' [e' |] | t]; auto.
  rewrite issued_app. simpl. intros H.
  apply app_eq_nil in H. destruct H as [_ H]. discriminate H.
Qed.

Section FailFast.

Context {W : Type} (eng : Engine W).

Lemma fail_fast_bind {A B : Type} (t : task exn A) (f : A -> task exn B) :
  fail_fast eng t -> (forall a, fail_fast eng (f a)) -> fail_fast eng (bind t f).
Proof.
  intros Ht Hf w. rewrite run_bind.
  destruct (Ht w) as (Hstop & Hclean & Hraise).
  destruct (value (run eng t w)) as [a | e]; cbn [prepend trace value is_ok].
  - specialize (Hclean eq_refl).
    destruct (Hf a (final (run eng t w))) as (Hstop' & Hclean' & Hraise').
    split; [| split].
    + apply stops_at_failure_app; assumption.
    + intros Hok. rewrite no_failure_app, Hclean, (Hclean' Hok). reflexivity.
    + intros e. rewrite first_failure_app, (no_failure_first_failure _ Hclean).
      apply Hraise'.
  - split; [exact Hstop | split; [discriminate |]].
    intros e' He. specialize (Hraise e' He). injection Hraise as <-. reflexivity.
Qed.

Lemma fail_fast_quiet {A : Type} (t : task exn A) :
  (forall w, issued (trace (run eng t w)) = []) -> fail_fast eng t.
Proof.
  intros H w. destruct (quiet_trace _ (H w)) as (Hclean & Hstop & Hnone).
  split; [exact Hstop | split; [intros _; exact Hclean |]].
  intros e He. rewrite Hnone in He. discriminate He.
Qed.

Lemma fail_fast_cur_execute (s : statement) : fail_fast eng (cur_execute s).
Proof.
  intros w. rewrite run_cur_execute. cbn [trace value].
  destruct (snd (cursor_execute eng s w)) as [e |]; simpl.
  - split; [reflexivity | split; [discriminate |]].
    intros e' He. injection He as <-. reflexivity.
  - split; [exact I | split; [reflexivity | discriminate]].
Qed.

Lemma fail_fast_ret {A : Type} (a : A) : fail_fast eng (@Ret exn A a).
Proof.
  apply fail_fast_quiet. reflexivity.
Qed.

Lemma fail_fast_gated_step (op : gated_operation) (p : MaintenanceProperties) :
  fail_fast eng (gated_step op p).
Proof.
  assert (Hstep : gated_step op p =
                  (due <- due_check op p ;;
                   if due : bool
                   then cur_execute (action op p) ;; cur_execute (bookkeeping op p)
                   else Ret tt)) by (destruct op; reflexivity).
  rewrite Hstep. apply fail_fast_bind.
  - apply fail_fast_quiet. intros w. apply due_check_silent.
  - intros [|]; [| apply fail_fast_ret].
    apply fail_fast_bind; [| intros _]; apply fail_fast_cur_execute.
Qed.

Lemma fail_fast_cleanup_steps (p : MaintenanceProperties) :
  fail_fast eng (cleanup_steps p).
Proof.
  unfold cleanup_steps, remove_orphan_files_step, expire_snapshots_step.
  apply fail_fast_bind; [| intros _];
    match goal with |- context [truthy ?f] => destruct (truthy f) end;
    try apply fail_fast_cur_execute; apply fail_fast_ret.
Qed.

Lemma fail_fast_maintenance_steps (p : MaintenanceProperties) :
  fail_fast eng (maintenance_steps p).
Proof.
  unfold maintenance_steps, steps_before_analyze.
  apply fail_fast_bind; [apply fail_fast_bind |].
  - apply fail_fast_cleanup_steps.
  - intros _. apply (fail_fast_gated_step GOptimize).
  - intros _. apply (fail_fast_gated_step GAnalyze).
Qed.

Lemma stops_at_failure_execute (p : MaintenanceProperties) (w : W) :
  stops_at_failure (trace (run eng (execute p) w)).
Proof.
  destruct (connection_factory eng w) as [w1 [e |]] eqn:Hc.
  - rewrite (run_execute_offline eng p w w1 e Hc). exact I.
  - rewrite (run_execute_online eng p w w1 Hc). cbn [trace stops_at_failure].
    apply stops_at_failure_quiet; [| reflexivity].
    apply fail_fast_maintenance_steps.
Qed.

(** A statement the engine refuses fails the task with what the engine
    raised, wrapped with the policy of the task. *)
Lemma failed_statement_raises (p : MaintenanceProperties) (w : W)
    (pre post : list event) (s : statement) (e : exn) :
  trace (run eng (execute p) w) = pre ++ EvExecute s (Some e) :: post ->
  value (run eng (execute p) w) = Raised (mkTaskException p e).
Proof.
  intros Htr.
  pose proof (stops_at_failure_execute p w) as Hstop. rewrite Htr in Hstop.
  apply first_failure_split in Hstop. rewrite <- Htr in Hstop. clear Htr.
  destruct (connection_factory eng w) as [w1 [e' |]] eqn:Hc.
  - rewrite (run_execute_offline eng p w w1 e' Hc) in Hstop. discriminate Hstop.
  - rewrite (run_execute_online eng p w w1 Hc) in *.
    cbn [trace value first_failure] in *.
    rewrite first_failure_app in Hstop.
    destruct (fail_fast_maintenance_steps p w1) as (_ & _ & Hraise).
    destruct (first_failure (trace (run eng (maintenance_steps p) w1))) as [e'' |];
      [| discriminate Hstop].
    injection Hstop as ->. rewrite (Hraise e eq_refl). reflexivity.
Qed.

End FailFast.


(** ** Bookkeeping *)

Lemma bookkeeping_not_action (op op' : gated_operation) (p : MaintenanceProperties) :
  action op p <> bookkeeping op' p.
Proof.
  destruct op, op'; discriminate.
Qed.

Lemma bookkeeping_injective (op op' : gated_operation) (p : MaintenanceProperties) :
  bookkeeping op p = bookkeeping op' p -> op = op'.
Proof.
  destruct op, op'; try reflexivity; discriminate.
Qed.

Lemma bookkeeping_follows_success_quiet (p : MaintenanceProperties)
    (tr : list event) :
  issued tr = [] -> forall prev, bookkeeping_follows_success p prev tr.
Proof.
  induction tr as [| ev tr IH]; intros Hq prev; [exact I |].
  destruct ev as [r | | s r | t]; simpl in *; try discriminate;
    (split; [intros op r' H; discriminate H | apply IH, Hq]).
Qed.

Lemma bookkeeping_follows_success_app (p : MaintenanceProperties)
    (tr1 tr2 : list event) :
  (forall prev, bookkeeping_follows_success p prev tr1) ->
  (forall prev, bookkeeping_follows_success p prev tr2) ->
  forall prev, bookkeeping_follows_success p prev (tr1 ++ tr2).
Proof.
  intros H1 H2 prev. specialize (H1 prev). revert prev H1.
  induction tr1 as [| ev tr1 IH]; intros prev H1; simpl; [apply H2 |].
  destruct H1 as [Hev Hrest]. split; [exact Hev | apply IH, Hrest].
Qed.

Lemma bookkeeping_follows_success_split (p : MaintenanceProperties)
    (op : gated_operation) (r : option exn) (pre post : list event) :
  bookkeeping_follows_success p None
    (pre ++ EvExecute (bookkeeping op p) r :: post) ->
  exists pre', pre = pre' ++ [EvExecute (action op p) None].
Proof.
  assert (Hgen : forall prev,
    bookkeeping_follows_success p prev
      (pre ++ EvExecute (bookkeeping op p) r :: post) ->
    (pre = [] /\ prev = Some (EvExecute (action op p) None)) \/
    exists pre', pre = pre' ++ [EvExecute (action op p) None]).
  { induction pre as [| ev pre IH]; intros prev H; simpl in H.
    - left. split; [reflexivity |]. destruct H as [H _]. apply (H op r eq_refl).
    - right. destruct H as [_ H]. apply IH in H.
      destruct H as [[-> Hprev] | [pre' ->]].
      + injection Hprev as ->. exists []. reflexivity.
      + exists (ev :: pre'). reflexivity. }
  intros H. apply Hgen in H. destruct H as [[_ H] | H]; [discriminate | exact H].
Qed.

Section Bookkeeping.

Context {W : Type} (eng : Engine W) (p : MaintenanceProperties).

Lemma follows_success_bind {E A B : Type} (t : task E A) (f : A -> task E B) :
  follows_success eng p t -> (forall a, follows_success eng p (f a)) ->
  follows_success eng p (bind t f).
Proof.
  intros Ht Hf w. rewrite run_bind.
  destruct (value (run eng t w)) as [a | e]; cbn [prepend trace].
  - apply bookkeeping_follows_success_app; [apply Ht | apply Hf].
  - apply Ht.
Qed.

Lemma follows_success_quiet {E A : Type} (t : task E A) :
  (forall w, issued (trace (run eng t w)) = []) -> follows_success eng p t.
Proof.
  intros H w. apply bookkeeping_follows_success_quiet, H.
Qed.

Lemma follows_success_cleanup : follows_success eng p (cleanup_steps p).
Proof.
  unfold cleanup_steps, remove_orphan_files_step, expire_snapshots_step.
  apply follows_success_bind; [| intros _];
    match goal with |- context [truthy ?f] => destruct (truthy f) end;
    try (apply follows_success_quiet; reflexivity);
    intros w prev; rewrite run_cur_execute; cbn [trace];
    (split; [| exact I]); intros op r H; injection H as H _;
    destruct op; discriminate H.
Qed.

Lemma follows_success_gated_step (op : gated_operation) :
  follows_success eng p (gated_step op p).
Proof.
  assert (Hstep : gated_step op p =
                  (due <- due_check op p ;;
                   if due : bool
                   then cur_execute (action op p) ;; cur_execute (bookkeeping op p)
                   else Ret tt)) by (destruct op; reflexivity).
  rewrite Hstep. apply follows_success_bind.
  - apply follows_success_quiet. intros w. apply due_check_silent.
  - intros [|]; [| apply follows_success_quiet; reflexivity].
    intros w prev. rewrite run_bind, !run_cur_execute. cbn [value trace final].
    destruct (snd (cursor_execute eng (action op p) w)) as [e |];
      cbn [prepend trace app bookkeeping_follows_success].
    + split; [| exact I]. intros op' r H. injection H as H _.
      exfalso. exact (bookkeeping_not_action op op' p H).
    + split; [| split; [| exact I]].
      * intros op' r H. injection H as H _.
        exfalso. exact (bookkeeping_not_action op op' p H).
      * intros op' r H. injection H as H _.
        apply bookkeeping_injective in H. subst op'. reflexivity.
Qed.

Lemma follows_success_execute (w : W) :
  bookkeeping_follows_success p None (trace (run eng (execute p) w)).
Proof.
  destruct (connection_factory eng w) as [w1 [e |]] eqn:Hc.
  - rewrite (run_execute_offline eng p w w1 e Hc).
    split; [intros op r H; discriminate H | exact I].
  - rewrite (run_execute_online eng p w w1 Hc). cbn [trace].
    split; [intros op r H; discriminate H |].
    apply bookkeeping_follows_success_app.
    + intros prev. unfold maintenance_steps, steps_before_analyze.
      apply follows_success_bind; [apply follows_success_bind |].
      * apply follows_success_cleanup.
      * intros _. apply (follows_success_gated_step GOptimize).
      * intros _. apply (follows_success_gated_step GAnalyze).
    + intros prev. split; [intros op r H; discriminate H | exact I].
Qed.

End Bookkeeping.

(** The statements of a task and the rows of the policy table. *)
Lemma same_but_watermarks_refl (row : MaintenanceProperties) :
  same_but_watermarks row row.
Proof.
  repeat split.
Qed.

Lemma Forall2_refl_of {A : Type} (R : A -> A -> Prop) (l : list A) :
  (forall a, R a a) -> Forall2 R l l.
Proof.
  intros HR. induction l; constructor; auto.
Qed.

Lemma Forall2_nth_error_both {A B : Type} (R : A -> B -> Prop)
    (l : list A) (l' : list B) (i : nat) (a : A) (b : B) :
  Forall2 R l l' -> nth_error l i = Some a -> nth_error l' i = Some b -> R a b.
Proof.
  intros H. revert i. induction H as [| x y l l' Hxy _ IH]; intros [| i] Ha Hb;
    simpl in *; try discriminate.
  - injection Ha as <-. injection Hb as <-. exact Hxy.
  - exact (IH i Ha Hb).
Qed.

(** An UPDATE of a watermark leaves the other columns of every row alone,
    whichever rows its clause selects. *)
Lemma store_effect_same_but_watermarks (reading : clause_reading)
    (s : statement) (ts : datetime) (store : policy_store) :
  Forall2 same_but_watermarks store (store_effect reading s ts store).
Proof.
  destruct s; cbn [store_effect];
    try (apply Forall2_refl_of; exact same_but_watermarks_refl);
    unfold update_where; induction store as [| row store IH]; simpl;
    constructor; auto;
    destruct (where_table_name reading t row); repeat split.
Qed.

Lemma store_effect_bookkeeping_only (reading : clause_reading)
    (p : MaintenanceProperties) (s : statement) (ts : datetime)
    (store : policy_store) :
  In s (statements_of p) ->
  store_effect reading s ts store = store \/ exists op, s = bookkeeping op p.
Proof.
  intros [<- | [<- | [<- | [<- | [<- | [<- | []]]]]]]; cbn [store_effect];
    try (left; reflexivity).
  - right; exists GOptimize; reflexivity.
  - right; exists GAnalyze; reflexivity.
Qed.

(** A bookkeeping statement writes the watermark of its operation, at the
    engine's timestamp, in the rows its clause selects. *)
Lemma bookkeeping_sets_watermark (reading : clause_reading)
    (op : gated_operation) (p : MaintenanceProperties) (ts : datetime)
    (store : policy_store) :
  Forall2 (fun old new => new = old \/ new = set_watermark op ts old)
          store (store_effect reading (bookkeeping op p) ts store).
Proof.
  destruct op; cbn [bookkeeping store_effect set_watermark]; unfold update_where;
    induction store as [| row store IH]; simpl; constructor; auto;
    destruct (where_table_name reading (table_name p) row); auto.
Qed.

Lemma update_where_frame (reading : clause_reading) (p : MaintenanceProperties)
    (ts : datetime) (set : MaintenanceProperties -> MaintenanceProperties)
    (store : policy_store) :
  quote_free (table_name p) = true ->
  (forall row, table_name row = table_name p -> row_frame p ts row (set row)) ->
  Forall2 (row_frame p ts) store (update_where reading (table_name p) set store).
Proof.
  intros Hq Hset. unfold update_where, where_table_name. rewrite Hq.
  induction store as [| row store IH]; simpl; constructor; auto.
  destruct (String.eqb_spec (table_name row) (table_name p)) as [Heq | Hne].
  - apply Hset, Heq.
  - split; [repeat split | left; reflexivity].
Qed.

Lemma store_effect_frame (reading : clause_reading) (p : MaintenanceProperties)
    (s : statement) (ts : datetime) (store : policy_store) :
  quote_free (table_name p) = true ->
  In s (statements_of p) ->
  Forall2 (row_frame p ts) store (store_effect reading s ts store).
Proof.
  intros Hq.
  assert (Hsame : Forall2 (row_frame p ts) store store).
  { apply Forall2_refl_of. intros row.
    split; [repeat split | left; reflexivity]. }
  intros [<- | [<- | [<- | [<- | [<- | [<- | []]]]]]]; cbn [store_effect];
    try exact Hsame.
  - apply update_where_frame; [exact Hq |]. intros row Hrow.
    split; [repeat split | right]. split; [exact Hrow |]. left. split; reflexivity.
  - apply update_where_frame; [exact Hq |]. intros row Hrow.
    split; [repeat split | right]. split; [exact Hrow |]. right. split; reflexivity.
Qed.

Lemma bookkeeping_advances (reading : clause_reading) (op : gated_operation)
    (p : MaintenanceProperties) (ts : datetime) (store : policy_store) :
  quote_free (table_name p) = true ->
  Forall (fun new => table_name new = table_name p -> watermark op new = Some ts)
         (store_effect reading (bookkeeping op p) ts store).
Proof.
  intros Hq.
  destruct op; cbn [bookkeeping store_effect watermark];
    unfold update_where, where_table_name; rewrite Hq;
    apply Forall_forall; intros new Hin; apply in_map_iff in Hin;
    destruct Hin as (row & <- & _);
    destruct (String.eqb_spec (table_name row) (table_name p)) as [Heq | Hne];
    intros H; try reflexivity; contradiction.
Qed.

(** In a table with one row per name, rows that may only change where
    they are rows of [p]'s table change in one place at most. *)
Lemma row_frame_one_row (p : MaintenanceProperties) (ts : datetime)
    (store store' : policy_store) :
  NoDup (map table_name store) ->
  Forall2 (row_frame p ts) store store' ->
  forall i j a a' b b',
    nth_error store i = Some a -> nth_error store' i = Some a' -> a' <> a ->
    nth_error store j = Some b -> nth_error store' j = Some b' -> b' <> b ->
    i = j.
Proof.
  intros Hnd Hframe i j a a' b b' Ha Ha' Hna Hb Hb' Hnb.
  assert (Hown : forall k c c', nth_error store k = Some c ->
                   nth_error store' k = Some c' -> c' <> c ->
                   nth_error (map table_name store) k = Some (table_name p)).
  { intros k c c' Hc Hc' Hne.
    destruct (Forall2_nth_error_both _ _ _ _ _ _ Hframe Hc Hc') as [_ [Heq | [Hname _]]];
      [contradiction |].
    rewrite nth_error_map, Hc. simpl. rewrite Hname. reflexivity. }
  apply (proj1 (NoDup_nth_error (map table_name store)) Hnd).
  - apply nth_error_Some. rewrite (Hown i a a' Ha Ha' Hna). discriminate.
  - rewrite (Hown i a a' Ha Ha' Hna), (Hown j b b' Hb Hb' Hnb). reflexivity.
Qed.


(** ** Flags *)

Section Flags.

Context {W : Type} (eng : Engine W).

Lemma issued_gated_only_if_enabled (op : gated_operation)
    (p : MaintenanceProperties) (w : W) (s : statement) :
  In s (issued (trace (run eng (gated_step op p) w))) ->
  enabled op p = true /\ (s = action op p \/ s = bookkeeping op p).
Proof.
  rewrite issued_gated_step.
  destruct (enabled op p) eqn:Hen.
  - intros Hin. split; [reflexivity |].
    destruct (value (run eng (due_check op p) w)) as [[|] | e];
      try (destruct Hin; fail).
    destruct Hin as [<- | Hin]; [left; reflexivity |].
    destruct (snd (cursor_execute eng (action op p) w)); [destruct Hin |].
    destruct Hin as [<- | []]. right; reflexivity.
  - rewrite (run_due_check_disabled eng op p w Hen). intros [].
Qed.

(** A statement is sent only if the flag of its operation is set. *)
Lemma issued_only_if_enabled (p : MaintenanceProperties) (w : W) (s : statement) :
  In s (issued (trace (run eng (execute p) w))) ->
  (s = RemoveOrphanFiles (table_name p) (retention_days_orphan_files p) /\
   truthy (should_remove_orphan_files p) = true) \/
  (s = ExpireSnapshots (table_name p) (retention_days_snapshots p) /\
   truthy (should_expire_snapshots p) = true) \/
  (exists op, enabled op p = true /\ (s = action op p \/ s = bookkeeping op p)).
Proof.
  rewrite issued_execute.
  destruct (connection_factory eng w) as [w1 [e |]]; [intros [] |].
  unfold maintenance_steps, steps_before_analyze, cleanup_steps.
  rewrite !issued_run_bind, !in_app_iff.
  intros [[[Hin | Hin] | Hin] | Hin].
  - left. rewrite issued_remove_orphan_files_step in Hin.
    destruct (truthy (should_remove_orphan_files p)); [| destruct Hin].
    destruct Hin as [<- | []]. split; reflexivity.
  - right; left.
    destruct (value (run eng (remove_orphan_files_step p) w1)); [| destruct Hin].
    rewrite issued_expire_snapshots_step in Hin.
    destruct (truthy (should_expire_snapshots p)); [| destruct Hin].
    destruct Hin as [<- | []]. split; reflexivity.
  - right; right. exists GOptimize.
    match type of Hin with
    | In _ (match ?v with Ok _ => _ | Raised _ => _ end) =>
        destruct v; [| destruct Hin]
    end.
    exact (issued_gated_only_if_enabled GOptimize p _ s Hin).
  - right; right. exists GAnalyze.
    match type of Hin with
    | In _ (match ?v with Ok _ => _ | Raised _ => _ end) =>
        destruct v; [| destruct Hin]
    end.
    exact (issued_gated_only_if_enabled GAnalyze p _ s Hin).
Qed.

(** Two policies with the same body run alike. *)
Lemma same_steps_same_run (p p' : MaintenanceProperties) (w : W) :
  maintenance_steps p' = maintenance_steps p ->
  trace (run eng (execute p') w) = trace (run eng (execute p) w) /\
  final (run eng (execute p') w) = final (run eng (execute p) w) /\
  is_ok (value (run eng (execute p') w)) = is_ok (value (run eng (execute p) w)).
Proof.
  intros Hsteps.
  destruct (connection_factory eng w) as [w1 [e |]] eqn:Hc.
  - rewrite !(run_execute_offline eng _ w w1 e Hc). repeat split.
  - rewrite !(run_execute_online eng _ w w1 Hc), Hsteps.
    cbn [trace final value]. repeat split.
    destruct (value (run eng (maintenance_steps p) w1)); reflexivity.
Qed.

End Flags.

(** C7. With the flag of an operation unset, the operation is never sent,
    its due-check answers no without reading the clock, and the fields that
    go with the flag (watermark, interval, columns, retention) have no
    influence on what the task does: replacing them by any other values
    gives the same run. *)
Theorem disabled_operation_short_circuits
    {W : Type} (eng : Engine W) (p : MaintenanceProperties) (w : W) :
  (truthy (should_optimize p) = false ->
   run eng (optimize_due p) w = mkRun w [] (Ok false) /\
   (forall s, In s (issued (trace (run eng (execute p) w))) -> is_optimize s = false) /\
   (forall last days,
      trace (run eng (execute (set_optimize_fields last days p)) w) =
        trace (run eng (execute p) w) /\
      final (run eng (execute (set_optimize_fields last days p)) w) =
        final (run eng (execute p) w) /\
      is_ok (value (run eng (execute (set_optimize_fields last days p)) w)) =
        is_ok (value (run eng (execute p) w))))
  /\
  (truthy (should_analyze p) = false ->
   run eng (analyze_due p) w = mkRun w [] (Ok false) /\
   (forall s, In s (issued (trace (run eng (execute p) w))) -> is_analyze s = false) /\
   (forall last days columns,
      trace (run eng (execute (set_analyze_fields last days columns p)) w) =
        trace (run eng (execute p) w) /\
      final (run eng (execute (set_analyze_fields last days columns p)) w) =
        final (run eng (execute p) w) /\
      is_ok (value (run eng (execute (set_analyze_fields last days columns p)) w)) =
        is_ok (value (run eng (execute p) w))))
  /\
  (truthy (should_expire_snapshots p) = false ->
   (forall s, In s (issued (trace (run eng (execute p) w))) ->
              is_expire_snapshots s = false) /\
   (forall days,
      trace (run eng (execute (set_retention_days_snapshots days p)) w) =
        trace (run eng (execute p) w) /\
      final (run eng (execute (set_retention_days_snapshots days p)) w) =
        final (run eng (execute p) w) /\
      is_ok (value (run eng (execute (set_retention_days_snapshots days p)) w)) =
        is_ok (value (run eng (execute p) w))))
  /\
  (truthy (should_remove_orphan_files p) = false ->
   (forall s, In s (issued (trace (run eng (execute p) w))) ->
              is_remove_orphan_files s = false) /\
   (forall days,
      trace (run eng (execute (set_retention_days_orphan_files days p)) w) =
        trace (run eng (execute p) w) /\
      final (run eng (execute (set_retention_days_orphan_files days p)) w) =
        final (run eng (execute p) w) /\
      is_ok (value (run eng (execute (set_retention_days_orphan_files days p)) w)) =
        is_ok (value (run eng (execute p) w)))).
Proof.
  assert (Hkinds : forall s,
    In s (issued (trace (run eng (execute p) w))) ->
    (is_remove_orphan_files s = true -> truthy (should_remove_orphan_files p) = true) /\
    (is_expire_snapshots s = true -> truthy (should_expire_snapshots p) = true) /\
    (is_optimize s = true -> truthy (should_optimize p) = true) /\
    (is_analyze s = true -> truthy (should_analyze p) = true)).
  { intros s Hin. apply issued_only_if_enabled in Hin.
    destruct Hin as [[-> Hf] | [[-> Hf] | [[|] [Hf [-> | ->]]]]];
      cbn [enabled action bookkeeping is_remove_orphan_files
           is_expire_snapshots is_optimize is_analyze] in *;
      repeat split; intros H; try discriminate H; exact Hf. }
  split; [| split; [| split]]; intros Hflag.
  - split; [| split].
    + unfold optimize_due. rewrite Hflag. reflexivity.
    + intros s Hin. destruct (Hkinds s Hin) as (_ & _ & H & _).
      destruct (is_optimize s); [| reflexivity].
      rewrite (H eq_refl) in Hflag. discriminate Hflag.
    + intros last days. apply same_steps_same_run.
      unfold maintenance_steps, steps_before_analyze, cleanup_steps,
        remove_orphan_files_step, expire_snapshots_step, optimize_step,
        analyze_step, optimize_due, analyze_due.
      cbn [set_optimize_fields table_name should_analyze last_analyzed_on
           days_to_analyze columns_to_analyze should_optimize last_optimized_on
           days_to_optimize should_expire_snapshots retention_days_snapshots
           should_remove_orphan_files retention_days_orphan_files].
      rewrite Hflag. reflexivity.
  - split; [| split].
    + unfold analyze_due. rewrite Hflag. reflexivity.
    + intros s Hin. destruct (Hkinds s Hin) as (_ & _ & _ & H).
      destruct (is_analyze s); [| reflexivity].
      rewrite (H eq_refl) in Hflag. discriminate Hflag.
    + intros last days columns. apply same_steps_same_run.
      unfold maintenance_steps, steps_before_analyze, cleanup_steps,
        remove_orphan_files_step, expire_snapshots_step, optimize_step,
        analyze_step, optimize_due, analyze_due.
      cbn [set_analyze_fields table_name should_analyze last_analyzed_on
           days_to_analyze columns_to_analyze should_optimize last_optimized_on
           days_to_optimize should_expire_snapshots retention_days_snapshots
           should_remove_orphan_files retention_days_orphan_files].
      rewrite Hflag. reflexivity.
  - split.
    + intros s Hin. destruct (Hkinds s Hin) as (_ & H & _ & _).
      destruct (is_expire_snapshots s); [| reflexivity].
      rewrite (H eq_refl) in Hflag. discriminate Hflag.
    + intros days. apply same_steps_same_run.
      unfold maintenance_steps, steps_before_analyze, cleanup_steps,
        remove_orphan_files_step, expire_snapshots_step, optimize_step,
        analyze_step, optimize_due, analyze_due.
      cbn [set_retention_days_snapshots table_name should_analyze last_analyzed_on
           days_to_analyze columns_to_analyze should_optimize last_optimized_on
           days_to_optimize should_expire_snapshots retention_days_snapshots
           should_remove_orphan_files retention_days_orphan_files].
      rewrite Hflag. reflexivity.
  - split.
    + intros s Hin. destruct (Hkinds s Hin) as (H & _ & _ & _).
      destruct (is_remove_orphan_files s); [| reflexivity].
      rewrite (H eq_refl) in Hflag. discriminate Hflag.
    + intros days. apply same_steps_same_run.
      unfold maintenance_steps, steps_before_analyze, cleanup_steps,
        remove_orphan_files_step, expire_snapshots_step, optimize_step,
        analyze_step, optimize_due, analyze_due.
      cbn [set_retention_days_orphan_files table_name should_analyze last_analyzed_on
           days_to_analyze columns_to_analyze should_optimize last_optimized_on
           days_to_optimize should_expire_snapshots retention_days_snapshots
           should_remove_orphan_files retention_days_orphan_files].
      rewrite Hflag. reflexivity.
Qed.

(** C8. Once the connection is open, remove-orphan-files is sent exactly
    when its flag is set, and, once that block has returned,
    expire-snapshots is sent exactly when its flag is set. Nothing else is
    consulted: the world the cycle starts from (whatever earlier cycles did
    to it) and the watermarks of the row are arbitrary, and neither
    statement writes a row of the policy table. *)
Theorem cleanup_due_iff_enabled
    {W : Type} (eng : Engine W) (p : MaintenanceProperties) (w w1 : W) :
  connection_factory eng w = (w1, None) ->
  (In (RemoveOrphanFiles (table_name p) (retention_days_orphan_files p))
      (issued (trace (run eng (execute p) w))) <->
   truthy (should_remove_orphan_files p) = true)
  /\
  (is_ok (value (run eng (remove_orphan_files_step p) w1)) = true ->
   (In (ExpireSnapshots (table_name p) (retention_days_snapshots p))
       (issued (trace (run eng (execute p) w))) <->
    truthy (should_expire_snapshots p) = true))
  /\
  (forall last_o last_a next,
     connection_factory eng (final (run eng (execute p) w)) = (next, None) ->
     truthy (should_remove_orphan_files p) = true ->
     In (RemoveOrphanFiles (table_name p) (retention_days_orphan_files p))
        (issued (trace (run eng
           (execute (set_analyze_fields last_a (days_to_analyze p)
                       (columns_to_analyze p)
                       (set_optimize_fields last_o (days_to_optimize p) p)))
           (final (run eng (execute p) w))))))
  /\
  (forall reading s ts store,
     is_remove_orphan_files s = true \/ is_expire_snapshots s = true ->
     store_effect reading s ts store = store).
Proof.
  intros Hc.
  assert (Horphan : forall q v v1,
    connection_factory eng v = (v1, None) ->
    truthy (should_remove_orphan_files q) = true ->
    In (RemoveOrphanFiles (table_name q) (retention_days_orphan_files q))
       (issued (trace (run eng (execute q) v)))).
  { intros q v v1 Hv Hflag. rewrite issued_execute, Hv.
    unfold maintenance_steps, steps_before_analyze, cleanup_steps.
    rewrite !issued_run_bind, !in_app_iff. do 3 left.
    rewrite issued_remove_orphan_files_step, Hflag. left. reflexivity. }
  split; [| split; [| split]].
  - split.
    + intros Hin. apply issued_only_if_enabled in Hin.
      destruct Hin as [[_ Hf] | [[Hs _] | [op [_ [Hs | Hs]]]]];
        [exact Hf | discriminate Hs | destruct op; discriminate Hs
        | destruct op; discriminate Hs].
    + apply (Horphan p w w1 Hc).
  - intros Hok. split.
    + intros Hin. apply issued_only_if_enabled in Hin.
      destruct Hin as [[Hs _] | [[_ Hf] | [op [_ [Hs | Hs]]]]];
        [discriminate Hs | exact Hf | destruct op; discriminate Hs
        | destruct op; discriminate Hs].
    + intros Hflag. rewrite issued_execute, Hc.
      unfold maintenance_steps, steps_before_analyze, cleanup_steps.
      rewrite !issued_run_bind, !in_app_iff. do 2 left. right.
      destruct (value (run eng (remove_orphan_files_step p) w1));
        [| discriminate Hok].
      rewrite issued_expire_snapshots_step, Hflag. left. reflexivity.
  - intros last_o last_a next Hnext Hflag.
    exact (Horphan (set_analyze_fields last_a (days_to_analyze p)
                      (columns_to_analyze p)
                      (set_optimize_fields last_o (days_to_optimize p) p))
                   _ next Hnext Hflag).
  - intros reading s ts store [H | H]; destruct s; try discriminate H; reflexivity.
Qed.

Lemma cleanup_due_iff_enabled_witness :
  In (RemoveOrphanFiles "t1" (Some 7))
     (issued (trace (run Demo.engine (execute (Demo.full_row "t1"))
                         (Demo.at_time Demo.noon [] Demo.is_optimize_command)))) /\
  In (ExpireSnapshots "t1" (Some 7))
     (issued (trace (run Demo.engine (execute (Demo.full_row "t1"))
                         (Demo.at_time Demo.noon [] Demo.is_optimize_command)))).
Proof.
  destruct (cleanup_due_iff_enabled Demo.engine (Demo.full_row "t1")
              (Demo.at_time Demo.noon [] Demo.is_optimize_command)
              (Demo.at_time Demo.noon [] Demo.is_optimize_command) eq_refl)
    as (Horphan & Hexpire & _).
  split.
  - apply Horphan. reflexivity.
  - apply Hexpire; reflexivity.
Defined.

(** ** The text of the ANALYZE statement *)

Lemma string_append_assoc (a b c : string) :
  ((a ++ b) ++ c = a ++ (b ++ c))%string.
Proof.
  induction a as [| ch a IH]; simpl; [reflexivity | rewrite IH; reflexivity].
Qed.

Lemma string_append_empty (a : string) : (a ++ EmptyString)%string = a.
Proof.
  induction a as [| ch a IH]; simpl; [reflexivity | rewrite IH; reflexivity].
Qed.

Lemma scan_literals_skip (a b : string) :
  quote_free a = true ->
  scan_literals (a ++ b)%string None = scan_literals b None.
Proof.
  induction a as [| ch a IH]; simpl; [reflexivity |].
  destruct (Ascii.eqb ch quote_char); simpl; [discriminate | exact IH].
Qed.

Lemma scan_literals_inside (x rest acc : string) :
  quote_free x = true ->
  scan_literals (x ++ String quote_char rest)%string (Some acc) =
  (acc ++ x)%string :: scan_literals rest None.
Proof.
  revert acc. induction x as [| ch x IH]; intros acc Hx; simpl.
  - rewrite string_append_empty. reflexivity.
  - simpl in Hx. destruct (Ascii.eqb ch quote_char); simpl in *; [discriminate |].
    rewrite (IH _ Hx), string_append_assoc. reflexivity.
Qed.

Lemma scan_literals_quoted (x rest : string) :
  quote_free x = true ->
  scan_literals (quoted x ++ rest)%string None = x :: scan_literals rest None.
Proof.
  intros Hx. unfold quoted.
  change ("'" ++ x ++ "'")%string with (String quote_char (x ++ "'")%string).
  cbn [append scan_literals]. rewrite Ascii.eqb_refl.
  rewrite string_append_assoc.
  change ("'" ++ rest)%string with (String quote_char rest).
  apply (scan_literals_inside x rest EmptyString Hx).
Qed.

Lemma scan_literals_concat (cs : list string) (tail : string) :
  Forall (fun c => quote_free c = true) cs ->
  quote_free tail = true ->
  scan_literals (String.concat ", " (map quoted cs) ++ tail)%string None = cs.
Proof.
  intros Hcs Htail.
  assert (Hend : scan_literals tail None = []).
  { rewrite <- (string_append_empty tail). rewrite scan_literals_skip; auto. }
  induction Hcs as [| c cs Hc Hcs IH]; [exact Hend |].
  destruct cs as [| c' cs].
  - cbn [map String.concat]. rewrite (scan_literals_quoted c tail Hc), Hend.
    reflexivity.
  - change (String.concat ", " (map quoted (c :: c' :: cs)))
      with (quoted c ++ ", " ++ String.concat ", " (map quoted (c' :: cs)))%string.
    rewrite !string_append_assoc, (scan_literals_quoted _ _ Hc).
    rewrite scan_literals_skip by reflexivity.
    rewrite IH. reflexivity.
Qed.

Lemma prefix_append (a b : string) : prefix a (a ++ b)%string = true.
Proof.
  induction a as [| ch a IH]; simpl; [destruct b; reflexivity |].
  destruct (ascii_dec ch ch) as [_ | Hne]; [exact IH | contradiction].
Qed.



(** C10. A row whose [columns_to_analyze] is absent runs exactly like the
    same row with an empty sequence: every ANALYZE statement it sends
    carries no clause, and when the due-check says yes and the engine
    accepts the two statements the analyze block returns. *)
Theorem absent_columns_like_empty
    {W : Type} (eng : Engine W) (p : MaintenanceProperties) (w : W) :
  columns_to_analyze p = None ->
  (trace (run eng (execute p) w) =
     trace (run eng (execute (set_analyze_fields (last_analyzed_on p)
                                (days_to_analyze p) (Some []) p)) w) /\
   final (run eng (execute p) w) =
     final (run eng (execute (set_analyze_fields (last_analyzed_on p)
                                (days_to_analyze p) (Some []) p)) w) /\
   is_ok (value (run eng (execute p) w)) =
     is_ok (value (run eng (execute (set_analyze_fields (last_analyzed_on p)
                                       (days_to_analyze p) (Some []) p)) w)))
  /\
  (forall t clause,
     In (Analyze t clause) (issued (trace (run eng (execute p) w))) ->
     clause = EmptyString)
  /\
  (forall v,
     value (run eng (analyze_due p) v) = Ok true ->
     snd (cursor_execute eng (Analyze (table_name p) EmptyString) v) = None ->
     snd (cursor_execute eng (UpdateLastAnalyzedOn (table_name p))
            (fst (cursor_execute eng (Analyze (table_name p) EmptyString) v))) = None ->
     value (run eng (analyze_step p) v) = Ok tt /\
     issued (trace (run eng (analyze_step p) v)) =
       [Analyze (table_name p) EmptyString; UpdateLastAnalyzedOn (table_name p)]).
Proof.
  intros Hnone. split; [| split].
  - apply (same_steps_same_run eng
             (set_analyze_fields (last_analyzed_on p) (days_to_analyze p) (Some []) p)
             p w).
    unfold maintenance_steps, steps_before_analyze, cleanup_steps,
      remove_orphan_files_step, expire_snapshots_step, optimize_step,
      analyze_step, optimize_due, analyze_due.
    cbn [set_analyze_fields table_name should_analyze last_analyzed_on
         days_to_analyze columns_to_analyze should_optimize last_optimized_on
         days_to_optimize should_expire_snapshots retention_days_snapshots
         should_remove_orphan_files retention_days_orphan_files].
    rewrite Hnone. reflexivity.
  - intros t clause Hin. apply issued_only_if_enabled in Hin.
    destruct Hin as [[Hs _] | [[Hs _] | [op [_ [Hs | Hs]]]]];
      try discriminate Hs; destruct op; try discriminate Hs.
    injection Hs as -> ->. rewrite Hnone. reflexivity.
  - intros v Hdue Hanalyze Hupdate.
    destruct (due_check_silent eng GAnalyze p v) as [Hv _].
    cbn [due_check] in Hv.
    pose proof (issued_gated_step eng GAnalyze p v) as Hissued.
    cbn [gated_step due_check action bookkeeping] in Hissued.
    rewrite Hdue, Hnone in Hissued. cbn [with_columns] in Hissued.
    rewrite Hanalyze in Hissued. split; [| exact Hissued].
    unfold analyze_step. rewrite run_bind, Hdue, Hv. cbn [prepend value].
    rewrite run_bind, !run_cur_execute, Hnone. cbn [with_columns value final].
    rewrite Hanalyze. cbn [prepend value]. rewrite Hupdate. reflexivity.
Qed.

Lemma absent_columns_like_empty_witness :
  issued (trace (run Demo.engine (execute (Demo.analyze_row "t1" None None))
                     (Demo.at_time Demo.noon [] Demo.accepts_all))) =
    [Analyze "t1" EmptyString; UpdateLastAnalyzedOn "t1"] /\
  trace (run Demo.engine (execute (Demo.analyze_row "t1" None None))
             (Demo.at_time Demo.noon [] Demo.accepts_all)) =
  trace (run Demo.engine (execute (Demo.analyze_row "t1" None (Some [])))
             (Demo.at_time Demo.noon [] Demo.accepts_all)).
Proof.
  split.
  - reflexivity.
  - exact (proj1 (proj1 (absent_columns_like_empty Demo.engine
                           (Demo.analyze_row "t1" None None)
                           (Demo.at_time Demo.noon [] Demo.accepts_all)
                           eq_refl))).
Defined.

(** ** The worker pool *)

Lemma nth_error_set_nth_eq {A : Type} (l : list A) (j : nat) (a x : A) :
  nth_error l j = Some x -> nth_error (set_nth j a l) j = Some a.
Proof.
  revert j. induction l as [| y l IH]; intros [| j] H; simpl in *;
    try discriminate; [reflexivity | apply IH, H].
Qed.

Lemma nth_error_set_nth_ne {A : Type} (l : list A) (i j : nat) (a : A) :
  i <> j -> nth_error (set_nth j a l) i = nth_error l i.
Proof.
  revert i j. induction l as [| y l IH]; intros [| i] [| j] H; simpl;
    try reflexivity; [contradiction | apply IH; congruence].
Qed.

Lemma length_set_nth {A : Type} (l : list A) (j : nat) (a : A) :
  List.length (set_nth j a l) = List.length l.
Proof.
  revert j. induction l as [| y l IH]; intros [| j]; simpl; auto.
Qed.

Lemma Forall2_nth_error_r {A B : Type} (R : A -> B -> Prop)
    (l : list A) (l' : list B) (j : nat) (b : B) :
  Forall2 R l l' -> nth_error l' j = Some b ->
  exists a, nth_error l j = Some a /\ R a b.
Proof.
  intros H. revert j. induction H as [| x y l l' Hxy _ IH]; intros [| j] Hj;
    simpl in *; try discriminate.
  - injection Hj as <-. exists x. split; [reflexivity | exact Hxy].
  - apply IH, Hj.
Qed.

Lemma Forall2_set_nth {A B : Type} (R : A -> B -> Prop)
    (l : list A) (l' : list B) (j : nat) (b : B) :
  Forall2 R l l' ->
  (forall a, nth_error l j = Some a -> R a b) ->
  Forall2 R l (set_nth j b l').
Proof.
  intros H. revert j. induction H as [| x y l l' Hxy Hll IH]; intros [| j] Hb;
    simpl; constructor; auto.
Qed.

Lemma result_of_settled (f : future) (r : future_result) :
  result_of f = Some r -> f = settled r.
Proof.
  destruct f; simpl; intros H; try discriminate; injection H as <-; reflexivity.
Qed.

Lemma finished_settled (r : future_result) : finished (settled r) = true.
Proof.
  destruct r; reflexivity.
Qed.

Lemma finished_result_of (f : future) :
  finished f = true -> exists r, result_of f = Some r.
Proof.
  destruct f; simpl; intros H; try discriminate; eexists; reflexivity.
Qed.

Lemma wraps_policy_settled (p : MaintenanceProperties) (r : future_result) :
  wraps_policy p (settled r) ->
  r = Ok tt \/ exists e, r = Raised (mkTaskException p e).
Proof.
  destruct r as [[] | e]; simpl; intros H; [left; reflexivity |].
  right. exists (cause e). rewrite <- H. reflexivity.
Qed.

Lemma wraps_policy_try_except (p : MaintenanceProperties) (t : task exn unit) :
  wraps_policy p (try_except t (fun e => Raise (mkTaskException p e))).
Proof.
  induction t as [a | e | k IH | k IH | s k IH | k IH]; simpl; auto.
Qed.

Lemma wraps_policy_execute (p : MaintenanceProperties) :
  wraps_policy p (execute p).
Proof.
  apply wraps_policy_try_except.
Qed.

Section Pool.

Context {W : Type} (eng : Engine W).

Lemma wraps_policy_step (p : MaintenanceProperties) (f : future) (w : W) :
  wraps_policy p f -> wraps_policy p (snd (step eng f w)).
Proof.
  destruct f as [a | e | k | k | s k | k]; simpl; intros H; auto.
  - destruct (connection_factory eng w) as [w' r]. apply H.
  - destruct (cursor_execute eng s w) as [w' r]. apply H.
Qed.

Lemma wraps_policy_run (p : MaintenanceProperties) (f : future) (w : W) :
  wraps_policy p f -> wraps_policy p (settled (value (run eng f w))).
Proof.
  revert w. induction f as [a | e | k IH | k IH | s k IH | k IH];
    intros w H; simpl in *; auto.
  - destruct (connection_factory eng w) as [w' r]. apply IH, H.
  - destruct (cursor_execute eng s w) as [w' r]. apply IH, H.
Qed.

(** The task of a policy ends with [None] or with the exception carrying
    that policy. *)
Lemma execute_value (p : MaintenanceProperties) (w : W) :
  value (run eng (execute p) w) = Ok tt \/
  exists e, value (run eng (execute p) w) = Raised (mkTaskException p e).
Proof.
  apply wraps_policy_settled, wraps_policy_run, wraps_policy_execute.
Qed.

Lemma completed_not_running (rows : list MaintenanceProperties) (st : pool W)
    (j : nat) (f : future) :
  pool_invariant rows st ->
  nth_error (futures st) j = Some f -> finished f = false ->
  ~ In j (map fst (completed st)).
Proof.
  intros (_ & _ & Hrec & _) Hj Hrun Hin.
  apply in_map_iff in Hin. destruct Hin as ([j' r] & Hfst & Hin).
  simpl in Hfst. subst j'. apply Hrec in Hin.
  rewrite Hj in Hin. injection Hin as ->.
  rewrite finished_settled in Hrun. discriminate Hrun.
Qed.

(** Replacing a running future by a later state of the same task, and
    recording it when that state is final, keeps the invariant. *)
Lemma pool_invariant_advance (rows : list MaintenanceProperties) (st : pool W)
    (j : nat) (f f' : future) (w' : W) :
  pool_invariant rows st ->
  nth_error (futures st) j = Some f -> finished f = false ->
  (forall p, wraps_policy p f -> wraps_policy p f') ->
  pool_invariant rows
    (mkPool w' (set_nth j f' (futures st))
            (match result_of f' with
             | Some r => completed st ++ [(j, r)]
             | None => completed st
             end)).
Proof.
  intros Hinv Hj Hrun Hwraps.
  pose proof (completed_not_running rows st j f Hinv Hj Hrun) as Hfresh.
  destruct Hinv as (Hrows & Hnodup & Hrec & Hfin).
  unfold pool_invariant. cbn [futures completed].
  split; [| split; [| split]].
  - apply Forall2_set_nth; [exact Hrows |].
    intros p Hp. apply Hwraps.
    destruct (Forall2_nth_error_r _ _ _ _ _ Hrows Hj) as (p' & Hp' & Hw).
    rewrite Hp in Hp'. injection Hp' as <-. exact Hw.
  - destruct (result_of f') as [r |]; [| exact Hnodup].
    rewrite map_app. cbn [map fst].
    apply NoDup_app; [exact Hnodup | constructor; [intros [] | constructor] |].
    intros x Hx [<- | []]. exact (Hfresh Hx).
  - intros i r Hin.
    assert (Hcases : In (i, r) (completed st) \/
                     (i = j /\ result_of f' = Some r)).
    { destruct (result_of f') as [r' |]; [| left; exact Hin].
      apply in_app_iff in Hin. destruct Hin as [Hin | [Hin | []]];
        [left; exact Hin | right]. injection Hin as <- <-. split; reflexivity. }
    destruct Hcases as [Hold | [-> Hres]].
    + rewrite nth_error_set_nth_ne; [apply Hrec, Hold |].
      intros ->. apply Hfresh. apply in_map_iff. exists (j, r). split; auto.
    + rewrite (nth_error_set_nth_eq _ _ _ _ Hj). f_equal.
      apply result_of_settled, Hres.
  - intros i g Hi Hg.
    destruct (Nat.eq_dec i j) as [-> | Hne].
    + rewrite (nth_error_set_nth_eq _ _ _ _ Hj) in Hi. injection Hi as <-.
      destruct (finished_result_of _ Hg) as [r Hr]. rewrite Hr.
      rewrite map_app, in_app_iff. right. left. reflexivity.
    + rewrite nth_error_set_nth_ne in Hi by exact Hne.
      specialize (Hfin i g Hi Hg).
      destruct (result_of f'); [| exact Hfin].
      rewrite map_app, in_app_iff. left. exact Hfin.
Qed.

Lemma pool_step_invariant (rows : list MaintenanceProperties)
    (max_workers : Z) (j : nat) (st : pool W) :
  pool_invariant rows st -> pool_invariant rows (pool_step eng max_workers j st).
Proof.
  intros Hinv. unfold pool_step.
  destruct (nth_error (futures st) j) as [f |] eqn:Hj; [| exact Hinv].
  destruct (eligible max_workers (futures st) j) eqn:Hel; [| exact Hinv].
  unfold eligible in Hel. rewrite Hj in Hel.
  apply andb_true_iff in Hel. destruct Hel as [Hrun _].
  apply negb_true_iff in Hrun.
  pose proof (fun p => wraps_policy_step p f (world st)) as Hw.
  destruct (step eng f (world st)) as [w' f'].
  apply (pool_invariant_advance rows st j f f' w' Hinv Hj Hrun Hw).
Qed.

Lemma wait_for_invariant (rows : list MaintenanceProperties) (j : nat)
    (st : pool W) :
  pool_invariant rows st -> pool_invariant rows (wait_for eng j st).
Proof.
  intros Hinv. unfold wait_for.
  destruct (nth_error (futures st) j) as [f |] eqn:Hj; [| exact Hinv].
  destruct (finished f) eqn:Hrun; [exact Hinv |].
  pose proof (pool_invariant_advance rows st j f
                (settled (value (run eng f (world st))))
                (final (run eng f (world st))) Hinv Hj Hrun
                (fun p => wraps_policy_run p f (world st))) as H.
  destruct (value (run eng f (world st))); exact H.
Qed.

Lemma fold_pool_step_invariant (rows : list MaintenanceProperties)
    (max_workers : Z) (schedule : list nat) (st : pool W) :
  pool_invariant rows st ->
  pool_invariant rows
    (fold_left (fun s j => pool_step eng max_workers j s) schedule st).
Proof.
  revert st. induction schedule as [| j schedule IH]; intros st H; simpl;
    [exact H | apply IH, pool_step_invariant, H].
Qed.

Lemma fold_wait_for_invariant (rows : list MaintenanceProperties)
    (js : list nat) (st : pool W) :
  pool_invariant rows st ->
  pool_invariant rows (fold_left (fun s j => wait_for eng j s) js st).
Proof.
  revert st. induction js as [| j js IH]; intros st H; simpl;
    [exact H | apply IH, wait_for_invariant, H].
Qed.

(** Waiting never undoes a finished future, and finishes the one waited
    for. *)
Lemma wait_for_keeps (j i : nat) (st : pool W) (f : future) :
  nth_error (futures st) i = Some f -> finished f = true ->
  nth_error (futures (wait_for eng j st)) i = Some f.
Proof.
  intros Hi Hf. unfold wait_for.
  destruct (nth_error (futures st) j) as [g |] eqn:Hj; [| exact Hi].
  destruct (finished g) eqn:Hg; [exact Hi |].
  cbn [futures]. rewrite nth_error_set_nth_ne; [exact Hi |].
  intros ->. rewrite Hi in Hj. injection Hj as ->.
  rewrite Hf in Hg. discriminate Hg.
Qed.

Lemma wait_for_length (j : nat) (st : pool W) :
  List.length (futures (wait_for eng j st)) = List.length (futures st).
Proof.
  unfold wait_for.
  destruct (nth_error (futures st) j) as [g |]; [| reflexivity].
  destruct (finished g); [reflexivity |]. apply length_set_nth.
Qed.

Lemma wait_for_finishes (j : nat) (st : pool W) (g : future) :
  nth_error (futures st) j = Some g ->
  exists f, nth_error (futures (wait_for eng j st)) j = Some f /\
            finished f = true.
Proof.
  intros Hj. unfold wait_for. rewrite Hj.
  destruct (finished g) eqn:Hg.
  - exists g. split; assumption.
  - cbn [futures]. rewrite (nth_error_set_nth_eq _ _ _ _ Hj).
    eexists. split; [reflexivity | apply finished_settled].
Qed.

Lemma fold_wait_for_keeps (js : list nat) (i : nat) (st : pool W) (f : future) :
  nth_error (futures st) i = Some f -> finished f = true ->
  nth_error (futures (fold_left (fun s j => wait_for eng j s) js st)) i = Some f.
Proof.
  revert st. induction js as [| j js IH]; intros st Hi Hf; simpl;
    [exact Hi | apply IH; [apply wait_for_keeps |]; assumption].
Qed.

Lemma fold_wait_for_length (js : list nat) (st : pool W) :
  List.length (futures (fold_left (fun s j => wait_for eng j s) js st)) =
  List.length (futures st).
Proof.
  revert st. induction js as [| j js IH]; intros st; simpl;
    [reflexivity | rewrite IH; apply wait_for_length].
Qed.

Lemma fold_wait_for_finishes (js : list nat) (i : nat) (st : pool W) :
  In i js -> (i < List.length (futures st))%nat ->
  exists f,
    nth_error (futures (fold_left (fun s j => wait_for eng j s) js st)) i = Some f /\
    finished f = true.
Proof.
  revert st. induction js as [| j js IH]; intros st Hin Hlt; [destruct Hin |].
  simpl. destruct Hin as [-> | Hin].
  - destruct (nth_error (futures st) i) as [g |] eqn:Hi.
    + destruct (wait_for_finishes i st g Hi) as (f & Hf & Hfin).
      exists f. split; [apply fold_wait_for_keeps; assumption | exact Hfin].
    + apply nth_error_None in Hi. lia.
  - apply IH; [exact Hin | rewrite wait_for_length; exact Hlt].
Qed.

Lemma wait_for_all_finished (st : pool W) :
  all_finished
    (fold_left (fun s j => wait_for eng j s) (seq 0 (List.length (futures st))) st).
Proof.
  unfold all_finished. apply Forall_forall. intros f Hin.
  apply In_nth_error in Hin. destruct Hin as [i Hi].
  assert (Hlt : (i < List.length (futures st))%nat).
  { rewrite <- (fold_wait_for_length (seq 0 (List.length (futures st))) st) at 1.
    apply nth_error_Some. intros Hnone.
    pose proof (eq_trans (eq_sym Hnone) Hi) as Hbad. discriminate Hbad. }
  destruct (fold_wait_for_finishes (seq 0 (List.length (futures st))) i st)
    as (g & Hg & Hfin); [apply in_seq; lia | exact Hlt |].
  pose proof (eq_trans (eq_sym Hi) Hg) as Hsame.
  injection Hsame as ->. exact Hfin.
Qed.

Lemma run_pool_all_finished (max_workers : Z) (schedule : list nat)
    (st : pool W) :
  all_finished (run_pool eng max_workers schedule st).
Proof.
  unfold run_pool. apply wait_for_all_finished.
Qed.

Lemma run_pool_invariant (rows : list MaintenanceProperties) (max_workers : Z)
    (schedule : list nat) (st : pool W) :
  pool_invariant rows st ->
  pool_invariant rows (run_pool eng max_workers schedule st).
Proof.
  intros H. unfold run_pool.
  apply fold_wait_for_invariant, fold_pool_step_invariant, H.
Qed.

Lemma initial_pool_invariant (rows : list MaintenanceProperties) (w : W) :
  pool_invariant rows (mkPool w (map execute rows) []).
Proof.
  unfold pool_invariant. cbn [futures completed].
  split; [| split; [constructor | split]].
  - induction rows as [| p rows IH]; constructor;
      [apply wraps_policy_execute | exact IH].
  - intros j r [].
  - intros j f Hj Hf. apply nth_error_In, in_map_iff in Hj.
    destruct Hj as (p & <- & _). discriminate Hf.
Qed.

(** When every future has finished, the completed list holds each index
    once, with the result of the task of that row. *)
Lemma finished_pool_outcomes (rows : list MaintenanceProperties) (st : pool W) :
  pool_invariant rows st -> all_finished st ->
  Permutation (map fst (completed st)) (seq 0 (List.length rows)) /\
  (forall j r, In (j, r) (completed st) ->
     exists p, nth_error rows j = Some p /\
               (r = Ok tt \/ exists e, r = Raised (mkTaskException p e))).
Proof.
  intros (Hrows & Hnodup & Hrec & Hfin) Hall.
  pose proof (Forall2_length Hrows) as Hlen.
  split.
  - apply NoDup_Permutation; [exact Hnodup | apply seq_NoDup |].
    intros j. rewrite in_seq. split.
    + intros Hin. apply in_map_iff in Hin.
      destruct Hin as ([j' r] & Hfst & Hin). simpl in Hfst. subst j'.
      apply Hrec in Hin. split; [lia |]. rewrite Hlen.
      apply nth_error_Some. rewrite Hin. discriminate.
    + intros [_ Hlt]. rewrite Hlen in Hlt.
      destruct (nth_error (futures st) j) as [f |] eqn:Hj;
        [| apply nth_error_None in Hj; lia].
      apply (Hfin j f Hj).
      unfold all_finished in Hall. rewrite Forall_forall in Hall.
      apply Hall. eapply nth_error_In. exact Hj.
  - intros j r Hin. apply Hrec in Hin.
    destruct (Forall2_nth_error_r _ _ _ _ _ Hrows Hin) as (p & Hp & Hw).
    exists p. split; [exact Hp | apply wraps_policy_settled, Hw].
Qed.

End Pool.

Lemma collect_length (rs : list (nat * future_result)) :
  List.length (collect rs) = count_failed rs.
Proof.
  unfold count_failed. induction rs as [| [j [a | e]] rs IH]; simpl; auto.
Qed.

Lemma collect_In (rs : list (nat * future_result)) (rec : log_record) :
  In rec (collect rs) <->
  exists j e, In (j, Raised e) rs /\ rec = failure_record e.
Proof.
  induction rs as [| [j [a | e]] rs IH]; simpl.
  - split; [intros [] | intros (j & e & [] & _)].
  - rewrite IH. split.
    + intros (j' & e & Hin & Hrec). exists j', e. split; [right |]; assumption.
    + intros (j' & e & [Heq | Hin] & Hrec); [discriminate Heq |].
      exists j', e. split; assumption.
  - rewrite IH. split.
    + intros [<- | (j' & e' & Hin & Hrec)].
      * exists j, e. split; [left |]; reflexivity.
      * exists j', e'. split; [right |]; assumption.
    + intros (j' & e' & [Heq | Hin] & Hrec).
      * injection Heq as <- <-. left. symmetry. exact Hrec.
      * right. exists j', e'. split; assumption.
Qed.

Lemma count_outcomes (rs : list (nat * future_result)) :
  (count_succeeded rs + count_failed rs = List.length rs)%nat.
Proof.
  unfold count_succeeded, count_failed.
  induction rs as [| [j [a | e]] rs IH]; simpl; lia.
Qed.

(** What a cycle leaves behind once the rows have been read and the pool
    could be built. *)
Lemma run_maintenance_outcomes {W : Type} (eng : Engine W) (max_workers : Z)
    (schedule : list nat) (w w1 : W) (rows : list MaintenanceProperties) :
  fetch_policies eng w = (w1, Ok rows) -> 0 < max_workers ->
  returned (run_maintenance eng max_workers schedule w) = Ok tt /\
  log (run_maintenance eng max_workers schedule w) =
    collect (outcomes (run_maintenance eng max_workers schedule w)) /\
  Permutation (map fst (outcomes (run_maintenance eng max_workers schedule w)))
              (seq 0 (List.length rows)) /\
  (forall j r,
     In (j, r) (outcomes (run_maintenance eng max_workers schedule w)) ->
     exists p, nth_error rows j = Some p /\
               (r = Ok tt \/ exists e, r = Raised (mkTaskException p e))).
Proof.
  intros Hfetch Hworkers. unfold run_maintenance. rewrite Hfetch.
  destruct (Z.leb_spec max_workers 0) as [Hle | _]; [lia |].
  cbn [returned log outcomes].
  split; [reflexivity | split; [reflexivity |]].
  apply finished_pool_outcomes.
  - apply run_pool_invariant, initial_pool_invariant.
  - apply run_pool_all_finished.
Qed.

(** ** The calls of a cycle *)

Lemma engine_calls_app {W : Type} (eng : Engine W) (w1 w2 w3 : W)
    (c1 c2 : list (nat * event)) :
  engine_calls eng w1 c1 w2 -> engine_calls eng w2 c2 w3 ->
  engine_calls eng w1 (c1 ++ c2) w3.
Proof.
  induction 1; simpl; intros H2; [exact H2 | constructor; auto ..].
Qed.

Lemma residual_app {E A : Type} (t t1 t2 : task E A) (tr1 tr2 : list event) :
  residual t tr1 t1 -> residual t1 tr2 t2 -> residual t (tr1 ++ tr2) t2.
Proof.
  induction 1; simpl; intros H2; [exact H2 | constructor; auto ..].
Qed.

Lemma calls_of_app (j : nat) (c1 c2 : list (nat * event)) :
  calls_of j (c1 ++ c2) = calls_of j c1 ++ calls_of j c2.
Proof.
  unfold calls_of. rewrite filter_app, map_app. reflexivity.
Qed.

Lemma calls_of_own (j : nat) (tr : list event) :
  calls_of j (map (pair j) tr) = tr.
Proof.
  unfold calls_of. induction tr as [| ev tr IH]; simpl; [reflexivity |].
  rewrite Nat.eqb_refl. simpl. rewrite IH. reflexivity.
Qed.

Lemma calls_of_other (i j : nat) (tr : list event) :
  i <> j -> calls_of i (map (pair j) tr) = [].
Proof.
  intros Hne. unfold calls_of. induction tr as [| ev tr IH]; simpl; [reflexivity |].
  destruct (Nat.eqb_spec j i) as [Heq | _]; [congruence | exact IH].
Qed.

Section Calls.

Context {W : Type} (eng : Engine W).

(** One call of a task, as the engine sees it and as the task sees it. *)
Lemma step_calls {E A : Type} (j : nat) (t : task E A) (w : W) :
  exists tr,
    engine_calls eng w (map (pair j) tr) (fst (step eng t w)) /\
    residual t tr (snd (step eng t w)).
Proof.
  destruct t as [a | e | k | k | s k | k]; simpl.
  - exists []. split; constructor.
  - exists []. split; constructor.
  - pose proof (calls_connect eng j w [] _ (calls_done eng _)) as Hc.
    destruct (connection_factory eng w) as [w' r]. simpl in *.
    exists [EvConnect r]. split; [exact Hc | repeat constructor].
  - exists [EvRelease]. split; repeat constructor.
  - pose proof (calls_execute eng j s w [] _ (calls_done eng _)) as Hc.
    destruct (cursor_execute eng s w) as [w' r]. simpl in *.
    exists [EvExecute s r]. split; [exact Hc | repeat constructor].
  - exists [EvNow (datetime_now eng w)]. split; repeat constructor.
Qed.

(** A run of a task to its end: its trace is the calls the engine
    answered, and the calls that lead the task to its result. *)
Lemma run_calls (j : nat) (f : future) (w : W) :
  engine_calls eng w (map (pair j) (trace (run eng f w))) (final (run eng f w)) /\
  residual f (trace (run eng f w)) (settled (value (run eng f w))).
Proof.
  revert w. induction f as [a | e | k IH | k IH | s k IH | k IH]; intros w; simpl.
  - split; constructor.
  - split; constructor.
  - pose proof (fun calls w' => calls_connect eng j w calls w') as Hc.
    destruct (connection_factory eng w) as [w' r]. simpl in *.
    destruct (IH r w') as [H1 H2]. split; [apply Hc, H1 | constructor; exact H2].
  - destruct (IH (connection_exit eng w)) as [H1 H2].
    split; constructor; assumption.
  - pose proof (fun calls w' => calls_execute eng j s w calls w') as Hc.
    destruct (cursor_execute eng s w) as [w' r]. simpl in *.
    destruct (IH r w') as [H1 H2]. split; [apply Hc, H1 | constructor; exact H2].
  - destruct (IH (datetime_now eng w) w) as [H1 H2].
    split; constructor; assumption.
Qed.

Variable rows : list MaintenanceProperties.
Variable w0 : W.

Lemma accounted_initial :
  accounted eng rows w0 [] (mkPool w0 (map execute rows) []).
Proof.
  split; [constructor |].
  cbn [futures]. intros j f Hj. rewrite nth_error_map in Hj.
  destruct (nth_error rows j) as [p |]; [| discriminate Hj].
  injection Hj as <-. exists p. split; [reflexivity | constructor].
Qed.

(** Task [j] makes the calls [tr]. *)
Lemma accounted_advance (calls : list (nat * event)) (st : pool W) (j : nat)
    (f f' : future) (tr : list event) (w' : W)
    (done : list (nat * future_result)) :
  accounted eng rows w0 calls st ->
  nth_error (futures st) j = Some f ->
  engine_calls eng (world st) (map (pair j) tr) w' ->
  residual f tr f' ->
  accounted eng rows w0 (calls ++ map (pair j) tr)
            (mkPool w' (set_nth j f' (futures st)) done).
Proof.
  intros [Hcalls Hfut] Hj Hw Hres. split; cbn [world futures].
  - exact (engine_calls_app eng _ _ _ _ _ Hcalls Hw).
  - intros i g Hi. rewrite calls_of_app.
    destruct (Nat.eq_dec i j) as [-> | Hne].
    + rewrite (nth_error_set_nth_eq _ _ _ _ Hj) in Hi. injection Hi as <-.
      destruct (Hfut j f Hj) as (p & Hp & Hr).
      exists p. split; [exact Hp |].
      rewrite calls_of_own. exact (residual_app _ _ _ _ _ Hr Hres).
    + rewrite (nth_error_set_nth_ne _ _ _ _ Hne) in Hi.
      destruct (Hfut i g Hi) as (p & Hp & Hr).
      exists p. split; [exact Hp |].
      rewrite (calls_of_other i j tr Hne), app_nil_r. exact Hr.
Qed.

Lemma pool_step_accounted (max_workers : Z) (j : nat)
    (calls : list (nat * event)) (st : pool W) :
  accounted eng rows w0 calls st ->
  exists calls', accounted eng rows w0 calls' (pool_step eng max_workers j st).
Proof.
  intros Hacc. unfold pool_step.
  destruct (nth_error (futures st) j) as [f |] eqn:Hj; [| exists calls; exact Hacc].
  destruct (eligible max_workers (futures st) j); [| exists calls; exact Hacc].
  destruct (step_calls j f (world st)) as (tr & Hw & Hres).
  destruct (step eng f (world st)) as [w' f']. cbn [fst snd] in *.
  exists (calls ++ map (pair j) tr).
  exact (accounted_advance calls st j f f' tr w' _ Hacc Hj Hw Hres).
Qed.

Lemma wait_for_accounted (j : nat) (calls : list (nat * event)) (st : pool W) :
  accounted eng rows w0 calls st ->
  exists calls', accounted eng rows w0 calls' (wait_for eng j st).
Proof.
  intros Hacc. unfold wait_for.
  destruct (nth_error (futures st) j) as [f |] eqn:Hj; [| exists calls; exact Hacc].
  destruct (finished f); [exists calls; exact Hacc |].
  destruct (run_calls j f (world st)) as [Hw Hres].
  exists (calls ++ map (pair j) (trace (run eng f (world st)))).
  exact (accounted_advance calls st j f _ _ _ _ Hacc Hj Hw Hres).
Qed.

Lemma run_pool_accounted (max_workers : Z) (schedule : list nat)
    (calls : list (nat * event)) (st : pool W) :
  accounted eng rows w0 calls st ->
  exists calls', accounted eng rows w0 calls'
                   (run_pool eng max_workers schedule st).
Proof.
  assert (Hfold : forall (step_at : nat -> pool W -> pool W),
    (forall j c s, accounted eng rows w0 c s ->
                   exists c', accounted eng rows w0 c' (step_at j s)) ->
    forall js c s, accounted eng rows w0 c s ->
      exists c', accounted eng rows w0 c'
                   (fold_left (fun s j => step_at j s) js s)).
  { intros step_at Hstep js. induction js as [| j js IH]; intros c s Hacc; simpl.
    - exists c. exact Hacc.
    - destruct (Hstep j c s Hacc) as (c' & Hacc'). exact (IH c' _ Hacc'). }
  intros Hacc. unfold run_pool.
  destruct (Hfold (pool_step eng max_workers)
                  (fun j c s => pool_step_accounted max_workers j c s)
                  schedule calls st Hacc) as (c1 & H1).
  exact (Hfold (wait_for eng) wait_for_accounted _ c1 _ H1).
Qed.

End Calls.

(** The cycle is an interleaving of the runs of its tasks: the calls of all
    the tasks, in the order in which the engine answered them, lead the
    engine from the world in which the rows were read to the world the
    cycle leaves, and the calls of each task among them lead from
    [execute] of its row to the outcome collected for it. *)
Lemma run_maintenance_calls {W : Type} (eng : Engine W) (max_workers : Z)
    (schedule : list nat) (w w1 : W) (rows : list MaintenanceProperties) :
  fetch_policies eng w = (w1, Ok rows) -> 0 < max_workers ->
  exists calls,
    engine_calls eng w1 calls
      (cycle_world (run_maintenance eng max_workers schedule w)) /\
    forall j r,
      In (j, r) (outcomes (run_maintenance eng max_workers schedule w)) ->
      exists p, nth_error rows j = Some p /\
                residual (execute p) (calls_of j calls) (settled r).
Proof.
  intros Hfetch Hworkers. unfold run_maintenance. rewrite Hfetch.
  destruct (Z.leb_spec max_workers 0) as [Hle | _]; [lia |].
  cbn [cycle_world outcomes].
  destruct (run_pool_accounted eng rows w1 max_workers schedule [] _
              (accounted_initial eng rows w1)) as (calls & Hcalls & Hfut).
  exists calls. split; [exact Hcalls |].
  intros j r Hin.
  destruct (run_pool_invariant eng rows max_workers schedule _
              (initial_pool_invariant rows w1)) as (_ & _ & Hrec & _).
  exact (Hfut j (settled r) (Hrec j r Hin)).
Qed.

(** C3. Whatever goes wrong in a task (the connection cannot be opened, the
    engine refuses a maintenance command or a bookkeeping update) ends that
    task with a [MaintenanceTaskException] carrying the policy of its own
    table; and a cycle that has read the rows returns normally, with the
    outcome of every row's task collected exactly once, whichever tasks
    failed and however the tasks were interleaved. The outcome collected
    for a row is the one [execute] of that row comes to on the answers the
    engine gave to its calls in this cycle: the calls of all the tasks, in
    the order in which the engine answered them, lead the engine from the
    world in which the rows were read to the world the cycle leaves, and
    those of one task lead its [execute] to its outcome. *)
Theorem task_failures_are_isolated
    {W : Type} (eng : Engine W) (max_workers : Z) (schedule : list nat)
    (w w1 : W) (rows : list MaintenanceProperties) :
  fetch_policies eng w = (w1, Ok rows) ->
  0 < max_workers ->
  returned (run_maintenance eng max_workers schedule w) = Ok tt
  /\
  Permutation (map fst (outcomes (run_maintenance eng max_workers schedule w)))
              (seq 0 (List.length rows))
  /\
  (forall j r,
     In (j, r) (outcomes (run_maintenance eng max_workers schedule w)) ->
     exists p, nth_error rows j = Some p /\
               (r = Ok tt \/ exists e, r = Raised (mkTaskException p e)))
  /\
  (forall p v,
     (forall v1 e,
        connection_factory eng v = (v1, Some e) ->
        value (run eng (execute p) v) = Raised (mkTaskException p e)) /\
     (forall pre s e post,
        trace (run eng (execute p) v) = pre ++ EvExecute s (Some e) :: post ->
        value (run eng (execute p) v) = Raised (mkTaskException p e)) /\
     (value (run eng (execute p) v) = Ok tt \/
      exists e, value (run eng (execute p) v) = Raised (mkTaskException p e)))
  /\
  (exists calls,
     engine_calls eng w1 calls
       (cycle_world (run_maintenance eng max_workers schedule w)) /\
     forall j r,
       In (j, r) (outcomes (run_maintenance eng max_workers schedule w)) ->
       exists p, nth_error rows j = Some p /\
                 residual (execute p) (calls_of j calls) (settled r)).
Proof.
  intros Hfetch Hworkers.
  destruct (run_maintenance_outcomes eng max_workers schedule w w1 rows
              Hfetch Hworkers) as (Hret & _ & Hperm & Hwrap).
  split; [exact Hret | split; [exact Hperm | split; [exact Hwrap | split]]].
  - intros p v. split; [| split].
    + intros v1 e Hc. rewrite (run_execute_offline eng p v v1 e Hc). reflexivity.
    + intros pre s e post Htr.
      exact (failed_statement_raises eng p v pre post s e Htr).
    + apply execute_value.
  - exact (run_maintenance_calls eng max_workers schedule w w1 rows
             Hfetch Hworkers).
Qed.

Lemma task_failures_are_isolated_witness :
  Permutation
    (map fst (outcomes (run_maintenance Demo.engine 5 [0; 1; 1; 0]%nat
                          Demo.world_refusing_t1)))
    [0; 1]%nat /\
  outcomes (run_maintenance Demo.engine 5 [0; 1; 1; 0]%nat
              Demo.world_refusing_t1) =
    [(0%nat, Raised (mkTaskException (Demo.full_row "t1") (EngineError "refused")));
     (1%nat, Ok tt)] /\
  exists calls,
    engine_calls Demo.engine Demo.world_refusing_t1 calls
      (cycle_world (run_maintenance Demo.engine 5 [0; 1; 1; 0]%nat
                      Demo.world_refusing_t1)) /\
    residual (execute (Demo.full_row "t1")) (calls_of 0 calls)
             (Raise (mkTaskException (Demo.full_row "t1") (EngineError "refused"))) /\
    residual (execute (Demo.optimize_row "t2" None)) (calls_of 1 calls) (Ret tt).
Proof.
  pose proof (task_failures_are_isolated Demo.engine 5 [0; 1; 1; 0]%nat
                Demo.world_refusing_t1 Demo.world_refusing_t1
                Demo.two_rows eq_refl eq_refl) as (_ & Hperm & _ & _ & Hcalls).
  assert (Hout : outcomes (run_maintenance Demo.engine 5 [0; 1; 1; 0]%nat
                             Demo.world_refusing_t1) =
                 [(0%nat, Raised (mkTaskException (Demo.full_row "t1")
                                    (EngineError "refused")));
                  (1%nat, Ok tt)])
    by (vm_compute; reflexivity).
  split; [exact Hperm | split; [exact Hout |]].
  destruct Hcalls as (calls & Hworld & Heach).
  exists calls. split; [exact Hworld |].
  rewrite Hout in Heach. split.
  - destruct (Heach 0%nat _ (or_introl eq_refl)) as (p & Hp & Hres).
    injection Hp as <-. exact Hres.
  - destruct (Heach 1%nat _ (or_intror (or_introl eq_refl))) as (p & Hp & Hres).
    injection Hp as <-. exact Hres.
Defined.

(** C4, as amended. A cycle that has read the rows returns [None]; for
    each failed task, and for no other, it has logged one record, which
    names the table of the task and holds its exception; every row's task
    has either succeeded or failed. *)
Theorem run_maintenance_logs_failures
    {W : Type} (eng : Engine W) (max_workers : Z) (schedule : list nat)
    (w w1 : W) (rows : list MaintenanceProperties) :
  fetch_policies eng w = (w1, Ok rows) ->
  0 < max_workers ->
  returned (run_maintenance eng max_workers schedule w) = Ok tt
  /\
  List.length (log (run_maintenance eng max_workers schedule w)) =
    count_failed (outcomes (run_maintenance eng max_workers schedule w))
  /\
  (count_succeeded (outcomes (run_maintenance eng max_workers schedule w)) +
   count_failed (outcomes (run_maintenance eng max_workers schedule w)) =
   List.length rows)%nat
  /\
  (forall j e,
     In (j, Raised e) (outcomes (run_maintenance eng max_workers schedule w)) ->
     nth_error rows j = Some (maintenance_properties e) /\
     In (mkLog ("An exception has occurred while running maintenance tasks for "
                  ++ table_name (maintenance_properties e))%string e)
        (log (run_maintenance eng max_workers schedule w)))
  /\
  (forall rec,
     In rec (log (run_maintenance eng max_workers schedule w)) ->
     exists j,
       In (j, Raised (exc_info rec))
          (outcomes (run_maintenance eng max_workers schedule w))).
Proof.
  intros Hfetch Hworkers.
  destruct (run_maintenance_outcomes eng max_workers schedule w w1 rows
              Hfetch Hworkers) as (Hret & Hlog & Hperm & Hwrap).
  split; [exact Hret |]. rewrite Hlog. split; [apply collect_length |].
  split; [| split].
  - rewrite count_outcomes.
    rewrite <- (length_map fst), (Permutation_length Hperm). apply length_seq.
  - intros j e Hin. split.
    + destruct (Hwrap j _ Hin) as (p & Hp & [Hok | [e' He]]); [discriminate Hok |].
      injection He as ->. exact Hp.
    + apply collect_In. exists j, e. split; [exact Hin | reflexivity].
  - intros rec Hin. apply collect_In in Hin.
    destruct Hin as (j & e & Hin & ->). exists j. exact Hin.
Qed.

Lemma run_maintenance_logs_failures_witness :
  List.length (log (run_maintenance Demo.engine 5 [0; 1; 1; 0]%nat
                      Demo.world_refusing_t1)) = 1%nat /\
  returned (run_maintenance Demo.engine 5 [0; 1; 1; 0]%nat
              Demo.world_refusing_t1) = Ok tt.
Proof.
  destruct (run_maintenance_logs_failures Demo.engine 5 [0; 1; 1; 0]%nat
              Demo.world_refusing_t1 Demo.world_refusing_t1 Demo.two_rows
              eq_refl eq_refl) as (Hret & Hlen & _).
  split; [rewrite Hlen; reflexivity | exact Hret].
Defined.

(** C4 as stated fails: a cycle in which one task fails and a cycle in
    which none does return the same value, so nothing read off the returned
    value is the number of failed tasks of both. *)
Lemma run_maintenance_returns_no_report :
  count_failed (outcomes (run_maintenance Demo.engine 5 [] Demo.world_refusing_t1))
    = 1%nat /\
  count_failed (outcomes (run_maintenance Demo.engine 5 [] Demo.world_accepting))
    = 0%nat /\
  ~ exists failed_of : result exn unit -> nat,
      failed_of (returned (run_maintenance Demo.engine 5 [] Demo.world_refusing_t1)) =
        count_failed (outcomes (run_maintenance Demo.engine 5 [] Demo.world_refusing_t1)) /\
      failed_of (returned (run_maintenance Demo.engine 5 [] Demo.world_accepting)) =
        count_failed (outcomes (run_maintenance Demo.engine 5 [] Demo.world_accepting)).
Proof.
  split; [reflexivity | split; [reflexivity |]].
  intros (failed_of & Hone & Hnone).
  change (failed_of (Ok tt) = 1%nat) in Hone.
  change (failed_of (Ok tt) = 0%nat) in Hnone.
  rewrite Hone in Hnone. discriminate Hnone.
Qed.

(** ** Runs on the small engine *)




Lemma disabled_operation_short_circuits_witness :
  trace (run Demo.engine
           (execute (set_optimize_fields None None
                       (Demo.paused_row "t1" (Some Demo.noon))))
           (Demo.at_time Demo.noon [] Demo.accepts_all)) =
  trace (run Demo.engine
           (execute (Demo.paused_row "t1" (Some Demo.noon)))
           (Demo.at_time Demo.noon [] Demo.accepts_all)).
Proof.
  exact (proj1 (proj2 (proj2 (proj1 (disabled_operation_short_circuits Demo.engine
                                       (Demo.paused_row "t1" (Some Demo.noon))
                                       (Demo.at_time Demo.noon [] Demo.accepts_all))
                                    eq_refl))
                      None None)).
Defined.

(** The scenario of [test_optimize]: the first cycle optimizes and records
    the watermark; a second cycle right after sends nothing; a third one,
    eleven days later, optimizes again. *)
Example optimize_scenario :
  let first := run_maintenance Demo.engine 5 []
                 (Demo.at_time Demo.noon [Demo.optimize_row "t1" None]
                               Demo.accepts_all) in
  let second := run_maintenance Demo.engine 5 [] (cycle_world first) in
  let later := Demo.mkWorld (Demo.noon + 11 * microseconds_per_day)
                 (Demo.store (cycle_world second)) true Demo.accepts_all in
  let third := run_maintenance Demo.engine 5 [] later in
  Demo.store (cycle_world first) = [Demo.optimize_row "t1" (Some Demo.noon)] /\
  Demo.store (cycle_world second) = [Demo.optimize_row "t1" (Some Demo.noon)] /\
  Demo.store (cycle_world third) =
    [Demo.optimize_row "t1" (Some (Demo.noon + 11 * microseconds_per_day))].
Proof.
  vm_compute. repeat split.
Qed.

(** * Further properties of the script *)

(** ** The due-check when it cannot be evaluated *)

Lemma run_due_check_no_interval {W : Type} (eng : Engine W)
    (op : gated_operation) (p : MaintenanceProperties) (w : W) (l : datetime) :
  enabled op p = true ->
  watermark op p = Some l ->
  interval_days op p = None ->
  run eng (due_check op p) w = mkRun w [] (Raised TypeError).
Proof.
  intros Hen Hl Hd.
  destruct op; cbn [enabled watermark interval_days due_check] in *;
    unfold optimize_due, analyze_due; rewrite Hen, Hl, Hd; reflexivity.
Qed.

(** X5. With the flag set and a watermark present, the due-check of the
    tested variant raises [TypeError] when the interval is NULL and
    [OverflowError] when the interval exceeds what [timedelta] takes or the
    sum leaves the range of [datetime], in each case without reading the
    clock; otherwise it reads the clock once and compares. *)
Theorem due_check_outcomes
    {W : Type} (eng : Engine W) (op : gated_operation)
    (p : MaintenanceProperties) (w : W) (l : datetime) :
  enabled op p = true ->
  watermark op p = Some l ->
  (interval_days op p = None ->
   run eng (due_check op p) w = mkRun w [] (Raised TypeError))
  /\
  (forall d, interval_days op p = Some d ->
     timedelta_max_days < Z.abs d ->
     run eng (due_check op p) w = mkRun w [] (Raised OverflowError))
  /\
  (forall d, interval_days op p = Some d ->
     Z.abs d <= timedelta_max_days ->
     ~ valid_datetime (l + d * microseconds_per_day) ->
     run eng (due_check op p) w = mkRun w [] (Raised OverflowError))
  /\
  (forall d, interval_days op p = Some d ->
     Z.abs d <= timedelta_max_days ->
     valid_datetime (l + d * microseconds_per_day) ->
     run eng (due_check op p) w =
       mkRun w [EvNow (datetime_now eng w)]
             (Ok (l + d * microseconds_per_day <=? datetime_now eng w))).
Proof.
  intros Hen Hl.
  assert (Hcheck : due_check op p = interval_elapsed (Some l) (interval_days op p)).
  { destruct op; cbn [enabled watermark interval_days due_check] in *;
      unfold optimize_due, analyze_due; rewrite Hen, Hl; reflexivity. }
  rewrite Hcheck. unfold interval_elapsed, timedelta, datetime_add, valid_datetime.
  split; [| split; [| split]].
  - intros ->. reflexivity.
  - intros d -> Hbig.
    destruct (Z.leb_spec (Z.abs d) timedelta_max_days) as [Hle | _]; [lia |].
    reflexivity.
  - intros d -> Hsmall Hout.
    destruct (Z.leb_spec (Z.abs d) timedelta_max_days) as [_ | Hgt]; [| lia].
    cbn [lift bind]. cbv zeta.
    destruct (Z.leb_spec 0 (l + d * microseconds_per_day)) as [H0 | H0];
      destruct (Z.leb_spec (l + d * microseconds_per_day) datetime_max) as [H1 | H1];
      cbn [andb lift bind]; try reflexivity.
    exfalso. apply Hout. split; assumption.
  - intros d -> Hsmall [H0 H1].
    destruct (Z.leb_spec (Z.abs d) timedelta_max_days) as [_ | Hgt]; [| lia].
    cbn [lift bind]. cbv zeta.
    destruct (Z.leb_spec 0 (l + d * microseconds_per_day)) as [_ | H0']; [| lia].
    destruct (Z.leb_spec (l + d * microseconds_per_day) datetime_max) as [_ | H1'];
      [| lia].
    reflexivity.
Qed.

Lemma due_check_outcomes_witness :
  run Demo.engine
      (due_check GAnalyze
         (set_analyze_fields (Some Demo.noon) None None (Demo.analyze_row "t1" None None)))
      (Demo.at_time Demo.noon [] Demo.accepts_all) =
  mkRun (Demo.at_time Demo.noon [] Demo.accepts_all) [] (Raised TypeError).
Proof.
  exact (proj1 (due_check_outcomes Demo.engine GAnalyze
                  (set_analyze_fields (Some Demo.noon) None None
                     (Demo.analyze_row "t1" None None))
                  (Demo.at_time Demo.noon [] Demo.accepts_all) Demo.noon
                  eq_refl eq_refl)
               eq_refl).
Defined.

Lemma run_gated_step_raised {W : Type} (eng : Engine W) (op : gated_operation)
    (p : MaintenanceProperties) (w : W) (e : exn) :
  value (run eng (due_check op p) w) = Raised e ->
  value (run eng (gated_step op p) w) = Raised e /\
  issued (trace (run eng (gated_step op p) w)) = [].
Proof.
  intros Hdue. split.
  - assert (Hstep : gated_step op p =
                    (due <- due_check op p ;;
                     if due : bool
                     then cur_execute (action op p) ;; cur_execute (bookkeeping op p)
                     else Ret tt)) by (destruct op; reflexivity).
    rewrite Hstep, run_bind, Hdue. reflexivity.
  - rewrite issued_gated_step, Hdue. reflexivity.
Qed.

(** X6. When the due-check of an operation raises, the task fails with
    that exception as cause; what the earlier blocks sent has been sent,
    and nothing of this operation or of a later one is. *)
Theorem failing_due_check_fails_task
    {W : Type} (eng : Engine W) (op : gated_operation)
    (p : MaintenanceProperties) (w w1 w2 : W) (tr : list event) (e : exn) :
  connection_factory eng w = (w1, None) ->
  run eng (steps_before op p) w1 = mkRun w2 tr (Ok tt) ->
  value (run eng (due_check op p) w2) = Raised e ->
  value (run eng (execute p) w) = Raised (mkTaskException p e) /\
  issued (trace (run eng (execute p) w)) = issued tr.
Proof.
  intros Hc Hreach Hdue.
  destruct (run_gated_step_raised eng op p w2 e Hdue) as [Hval Hquiet].
  rewrite issued_execute, Hc, (run_execute_online eng p w w1 Hc).
  cbn [value].
  assert (Hbody :
    value (run eng (maintenance_steps p) w1) = Raised e /\
    issued (trace (run eng (maintenance_steps p) w1)) = issued tr).
  { unfold maintenance_steps.
    destruct op; cbn [steps_before gated_step] in *.
    - unfold steps_before_analyze.
      rewrite issued_run_bind, run_bind, issued_run_bind.
      rewrite (run_bind eng (cleanup_steps p)), Hreach.
      cbn [value final trace prepend].
      rewrite Hval, Hquiet. cbn [value]. rewrite !app_nil_r.
      split; reflexivity.
    - rewrite issued_run_bind, run_bind, Hreach. cbn [value final trace prepend].
      rewrite Hval, Hquiet, app_nil_r. split; reflexivity. }
  destruct Hbody as [-> ->]. split; reflexivity.
Qed.

Lemma failing_due_check_fails_task_witness :
  value (run Demo.engine
           (execute (set_analyze_fields (Some Demo.noon) None None (Demo.full_row "t1")))
           (Demo.at_time Demo.noon [] Demo.accepts_all)) =
    Raised (mkTaskException
              (set_analyze_fields (Some Demo.noon) None None (Demo.full_row "t1"))
              TypeError) /\
  issued (trace (run Demo.engine
           (execute (set_analyze_fields (Some Demo.noon) None None (Demo.full_row "t1")))
           (Demo.at_time Demo.noon [] Demo.accepts_all))) =
    [RemoveOrphanFiles "t1" (Some 7); ExpireSnapshots "t1" (Some 7);
     Optimize "t1"; UpdateLastOptimizedOn "t1"].
Proof.
  exact (failing_due_check_fails_task Demo.engine GAnalyze
           (set_analyze_fields (Some Demo.noon) None None (Demo.full_row "t1"))
           (Demo.at_time Demo.noon [] Demo.accepts_all)
           (Demo.at_time Demo.noon [] Demo.accepts_all)
           (Demo.at_time Demo.noon [] Demo.accepts_all)
           [EvExecute (RemoveOrphanFiles "t1" (Some 7)) None;
            EvExecute (ExpireSnapshots "t1" (Some 7)) None;
            EvExecute (Optimize "t1") None;
            EvExecute (UpdateLastOptimizedOn "t1") None]
           TypeError eq_refl eq_refl eq_refl).
Defined.



(** ** The connection and the statements of a task *)

Section Body.

Context {W : Type} (eng : Engine W).

Lemma body_events_bind {E A B : Type} (t : task E A) (f : A -> task E B) :
  (forall w, forallb body_event (trace (run eng t w)) = true) ->
  (forall a w, forallb body_event (trace (run eng (f a) w)) = true) ->
  forall w, forallb body_event (trace (run eng (bind t f) w)) = true.
Proof.
  intros Ht Hf w. rewrite run_bind.
  destruct (value (run eng t w)) as [a | e]; cbn [prepend trace].
  - rewrite forallb_app, Ht, Hf. reflexivity.
  - apply Ht.
Qed.

Lemma body_events_cur_execute (s : statement) (w : W) :
  forallb body_event (trace (run eng (cur_execute s) w)) = true.
Proof.
  rewrite run_cur_execute. reflexivity.
Qed.

Lemma body_events_interval_elapsed (last : option datetime) (days : option Z)
    (w : W) :
  forallb body_event (trace (run eng (interval_elapsed last days) w)) = true.
Proof.
  unfold interval_elapsed. destruct last as [l |]; [| reflexivity].
  destruct (timedelta days) as [delta | e]; cbn [lift bind]; [| reflexivity].
  destruct (datetime_add l delta) as [t | e]; cbn [lift bind]; reflexivity.
Qed.

Lemma body_events_gated_step (op : gated_operation) (p : MaintenanceProperties)
    (w : W) :
  forallb body_event (trace (run eng (gated_step op p) w)) = true.
Proof.
  assert (Hstep : gated_step op p =
                  (due <- due_check op p ;;
                   if due : bool
                   then cur_execute (action op p) ;; cur_execute (bookkeeping op p)
                   else Ret tt)) by (destruct op; reflexivity).
  rewrite Hstep. revert w. apply body_events_bind.
  - intros w. destruct op; cbn [due_check]; unfold optimize_due, analyze_due;
      match goal with |- context [truthy ?f] => destruct (truthy f) end;
      try apply body_events_interval_elapsed; reflexivity.
  - intros [|] w; [| reflexivity]. revert w.
    apply body_events_bind; intros; apply body_events_cur_execute.
Qed.

Lemma body_events_maintenance_steps (p : MaintenanceProperties) (w : W) :
  forallb body_event (trace (run eng (maintenance_steps p) w)) = true.
Proof.
  revert w. unfold maintenance_steps, steps_before_analyze, cleanup_steps.
  repeat apply body_events_bind; intros;
    try apply (body_events_gated_step GOptimize);
    try apply (body_events_gated_step GAnalyze);
    unfold remove_orphan_files_step, expire_snapshots_step;
    match goal with |- context [truthy ?f] => destruct (truthy f) end;
    try apply body_events_cur_execute; reflexivity.
Qed.

End Body.

(** X8. A task opens its connection first and once. If that fails nothing
    else happens; otherwise the trace is the opening, then statements and
    clock readings only, then the release of the connection as the last
    event, whether the body returned or raised. *)
Theorem connection_released_on_every_path
    {W : Type} (eng : Engine W) (p : MaintenanceProperties) (w : W) :
  (exists e, snd (connection_factory eng w) = Some e /\
             trace (run eng (execute p) w) = [EvConnect (Some e)])
  \/
  (exists body,
     snd (connection_factory eng w) = None /\
     trace (run eng (execute p) w) = EvConnect None :: body ++ [EvRelease] /\
     forallb body_event body = true).
Proof.
  destruct (connection_factory eng w) as [w1 [e |]] eqn:Hc.
  - left. exists e. rewrite (run_execute_offline eng p w w1 e Hc).
    split; reflexivity.
  - right. exists (trace (run eng (maintenance_steps p) w1)).
    rewrite (run_execute_online eng p w w1 Hc).
    repeat split. apply body_events_maintenance_steps.
Qed.

Lemma subseq_length {A : Type} (l1 l2 : list A) :
  subseq l1 l2 -> (List.length l1 <= List.length l2)%nat.
Proof.
  intros H. induction H; simpl; lia.
Qed.

Lemma subseq_NoDup {A : Type} (l1 l2 : list A) :
  subseq l1 l2 -> NoDup l2 -> NoDup l1.
Proof.
  intros H. induction H as [| x l1 l2 Hsub IH | x l1 l2 Hsub IH]; intros Hnd.
  - constructor.
  - apply IH. inversion Hnd; assumption.
  - inversion Hnd as [| y l Hnotin Hrest]; subst. constructor.
    + intros Hin. apply Hnotin. exact (subseq_In _ _ _ Hsub Hin).
    + apply IH, Hrest.
Qed.

(** X9. A task sends no statement twice, and never more than six: a
    statement the engine refused is not tried again within the task. *)
Theorem no_statement_twice
    {W : Type} (eng : Engine W) (p : MaintenanceProperties) (w : W) :
  NoDup (issued (trace (run eng (execute p) w))) /\
  (List.length (issued (trace (run eng (execute p) w))) <= 6)%nat.
Proof.
  pose proof (issued_execute_subseq eng p w) as Hsub.
  split.
  - apply (subseq_NoDup _ _ Hsub).
    unfold statements_of, cleanup_statements, gated_statements. cbn [app action bookkeeping].
    repeat constructor; cbn [In]; intuition discriminate.
  - apply (subseq_length _ _ Hsub).
Qed.

(** ** Cycles that run no task, and cycles of one task *)

Lemma pool_step_no_futures {W : Type} (eng : Engine W) (max_workers : Z)
    (schedule : list nat) (w : W) :
  fold_left (fun s j => pool_step eng max_workers j s) schedule (mkPool w [] []) =
  mkPool w [] [].
Proof.
  induction schedule as [| j schedule IH]; [reflexivity |].
  cbn [fold_left]. unfold pool_step at 2. cbn [futures].
  destruct j; exact IH.
Qed.

(** X2. On an empty policy table a cycle does nothing beyond reading it:
    no task, no log record, the world as the read left it, and [None]
    returned, whatever the schedule. *)
Theorem empty_table_cycle
    {W : Type} (eng : Engine W) (max_workers : Z) (schedule : list nat)
    (w w1 : W) :
  fetch_policies eng w = (w1, Ok []) ->
  0 < max_workers ->
  run_maintenance eng max_workers schedule w = mkCycle w1 [] [] (Ok tt).
Proof.
  intros Hfetch Hworkers. unfold run_maintenance. rewrite Hfetch.
  destruct (Z.leb_spec max_workers 0) as [Hle | _]; [lia |].
  unfold run_pool. cbn [map]. rewrite pool_step_no_futures. reflexivity.
Qed.

Lemma empty_table_cycle_witness :
  run_maintenance Demo.engine 5 [0; 3; 1]%nat
                  (Demo.at_time Demo.noon [] Demo.accepts_all) =
  mkCycle (Demo.at_time Demo.noon [] Demo.accepts_all) [] [] (Ok tt).
Proof.
  exact (empty_table_cycle Demo.engine 5 [0; 3; 1]%nat
           (Demo.at_time Demo.noon [] Demo.accepts_all)
           (Demo.at_time Demo.noon [] Demo.accepts_all) eq_refl eq_refl).
Defined.

Section SingleTask.

Context {W : Type} (eng : Engine W).

(** One call of a task, then the rest of it, ends as the task does. *)
Lemma step_then_run {E A : Type} (t : task E A) (w : W) :
  value (run eng (snd (step eng t w)) (fst (step eng t w))) = value (run eng t w) /\
  final (run eng (snd (step eng t w)) (fst (step eng t w))) = final (run eng t w).
Proof.
  destruct t as [a | e | k | k | s k | k]; simpl; try (split; reflexivity).
  - destruct (connection_factory eng w) as [w' r]. split; reflexivity.
  - destruct (cursor_execute eng s w) as [w' r]. split; reflexivity.
Qed.

Lemma run_settled (r : future_result) (w : W) :
  run eng (settled r) w = mkRun w [] r.
Proof.
  destruct r; reflexivity.
Qed.

(** A pool of one future keeps heading for the end of that future. *)
Lemma single_pool_step (max_workers : Z) (j : nat) (f0 : future) (w0 : W)
    (st : pool W) :
  single_pool eng f0 w0 st ->
  single_pool eng f0 w0 (pool_step eng max_workers j st).
Proof.
  intros (f & Hfs & Hv & Hw & Hc). unfold pool_step. rewrite Hfs.
  destruct (nth_error [f] j) as [g |] eqn:Hj;
    [| exists f; repeat split; assumption].
  destruct (eligible max_workers [f] j) eqn:Hel;
    [| exists f; repeat split; assumption].
  unfold eligible in Hel. rewrite Hj in Hel.
  apply andb_true_iff in Hel. destruct Hel as [Hrun _].
  apply negb_true_iff in Hrun.
  destruct j as [| j]; [| destruct j; discriminate Hj].
  cbn [nth_error] in Hj. injection Hj as <-.
  assert (Hnone : result_of f = None)
    by (destruct f; try reflexivity; discriminate Hrun).
  rewrite Hnone in Hc.
  destruct (step_then_run f (world st)) as [Hv' Hw'].
  destruct (step eng f (world st)) as [w' f'] eqn:Hstep. cbn [fst snd] in *.
  exists f'. cbn [futures world completed set_nth].
  split; [reflexivity | split; [| split]].
  - rewrite Hv'. exact Hv.
  - rewrite Hw'. exact Hw.
  - rewrite Hc. destruct (result_of f'); reflexivity.
Qed.

Lemma single_pool_after (max_workers : Z) (schedule : list nat)
    (f0 : future) (w0 : W) (st : pool W) :
  single_pool eng f0 w0 st ->
  single_pool eng f0 w0 (pool_after eng max_workers schedule st).
Proof.
  revert st. induction schedule as [| j schedule IH]; intros st H;
    [exact H | apply IH, single_pool_step, H].
Qed.

End SingleTask.

(** X1. A cycle over a policy table of one row ends exactly as the task of
    that row run on its own from the world the read left: the same outcome,
    the same final world, and a log record exactly if it failed, whatever
    the schedule. *)
Theorem single_row_cycle
    {W : Type} (eng : Engine W) (max_workers : Z) (schedule : list nat)
    (w w1 : W) (p : MaintenanceProperties) :
  fetch_policies eng w = (w1, Ok [p]) ->
  0 < max_workers ->
  outcomes (run_maintenance eng max_workers schedule w) =
    [(0%nat, value (run eng (execute p) w1))] /\
  cycle_world (run_maintenance eng max_workers schedule w) =
    final (run eng (execute p) w1) /\
  log (run_maintenance eng max_workers schedule w) =
    match value (run eng (execute p) w1) with
    | Ok _ => []
    | Raised e => [failure_record e]
    end.
Proof.
  intros Hfetch Hworkers. unfold run_maintenance. rewrite Hfetch.
  destruct (Z.leb_spec max_workers 0) as [Hle | _]; [lia |].
  cbn [outcomes cycle_world log map]. unfold run_pool.
  fold (pool_after eng max_workers schedule (mkPool w1 [execute p] [])).
  assert (Hstart : single_pool eng (execute p) w1 (mkPool w1 [execute p] []))
    by (exists (execute p); repeat split).
  destruct (single_pool_after eng max_workers schedule (execute p) w1 _ Hstart)
    as (f' & Hfs & Hv & Hw & Hc).
  set (st := pool_after eng max_workers schedule (mkPool w1 [execute p] [])) in *.
  rewrite Hfs. cbn [List.length seq fold_left].
  unfold wait_for. rewrite Hfs. cbn [nth_error].
  destruct (finished f') eqn:Hfin.
  - destruct (finished_result_of f' Hfin) as [r Hr].
    rewrite Hr in Hc. apply result_of_settled in Hr. subst f'.
    rewrite run_settled in Hv, Hw. cbn [value final] in Hv, Hw.
    rewrite Hc, <- Hv, <- Hw. repeat split.
  - assert (Hnone : result_of f' = None)
      by (destruct f'; try reflexivity; discriminate Hfin).
    rewrite Hnone in Hc. cbn [world completed]. rewrite Hc, Hv, Hw.
    repeat split.
Qed.

Lemma single_row_cycle_witness :
  outcomes (run_maintenance Demo.engine 5 [0; 0; 7; 0]%nat
              (Demo.at_time Demo.noon [Demo.optimize_row "t1" None]
                            Demo.accepts_all)) =
  [(0%nat, Ok tt)].
Proof.
  exact (proj1 (single_row_cycle Demo.engine 5 [0; 0; 7; 0]%nat
                  (Demo.at_time Demo.noon [Demo.optimize_row "t1" None]
                                Demo.accepts_all)
                  (Demo.at_time Demo.noon [Demo.optimize_row "t1" None]
                                Demo.accepts_all)
                  (Demo.optimize_row "t1" None) eq_refl eq_refl)).
Defined.

(** ** Rows, configuration, and the single-file script *)

(** X10. [from_row] raises [TypeError] on a row that has not exactly twelve
    values; on a row of [SELECT *] over the table that
    [create_if_not_exists_management_table] creates it succeeds, and every
    field of the instance holds the value of the column of the same
    name. *)
Theorem from_row_by_column_name :
  (forall row, List.length row <> 12%nat -> from_row row = Raised TypeError)
  /\
  (forall r : string -> pyval,
     exists instance,
       from_row (select_star management_table_columns r) = Ok instance /\
       forall f, In f field_names -> getattr f instance = Some (r f)).
Proof.
  split.
  - intros row Hlen. unfold from_row.
    destruct (Nat.eqb_spec (List.length row) (List.length field_names)) as [Heq | _];
      [| reflexivity].
    exfalso. apply Hlen. exact Heq.
  - intros r. eexists. split; [reflexivity |].
    intros f Hin. unfold field_names in Hin. cbn [In] in Hin.
    repeat (destruct Hin as [<- | Hin]; [reflexivity |]). destruct Hin.
Qed.

(** X11. Computing the arguments of [connect] in [get_trino_connection]
    raises only [ValueError], and only when TRINO_PORT is set to something
    [int] refuses. Otherwise it attaches
    credentials exactly when TRINO_PASSWORD is set, which is exactly when
    the scheme is https; the credentials are those of the connection's
    user. *)
Theorem credentials_only_over_https
    (int_of_str : string -> option Z) (env : environment) :
  match get_trino_connection int_of_str env with
  | Ok args =>
      (arg_auth args = None <-> env "TRINO_PASSWORD"%string = None) /\
      (arg_http_scheme args = "https"%string <-> arg_auth args <> None) /\
      (arg_http_scheme args = "http"%string <-> arg_auth args = None) /\
      (forall u pw, arg_auth args = Some (u, pw) ->
                    u = arg_user args /\
                    env "TRINO_PASSWORD"%string = Some pw)
  | Raised e =>
      e = ValueError /\
      exists s, env "TRINO_PORT"%string = Some s /\ int_of_str s = None
  end.
Proof.
  unfold get_trino_connection.
  destruct (env "TRINO_PORT"%string) as [s |] eqn:Hport.
  - destruct (int_of_str s) as [n |] eqn:Hint.
    + cbn [arg_auth arg_http_scheme arg_user].
      destruct (env "TRINO_PASSWORD"%string) as [pw |]; repeat split;
        try discriminate; try congruence; intros; try congruence.
    + split; [reflexivity | exists s; split; [reflexivity | exact Hint]].
  - cbn [arg_auth arg_http_scheme arg_user].
    destruct (env "TRINO_PASSWORD"%string) as [pw |]; repeat split;
      try discriminate; try congruence; intros; try congruence.
Qed.

(** X12. In the single-file script a row whose [columns_to_analyze] is
    absent fails the analyze block with [TypeError] as soon as analyze is
    due, before any ANALYZE statement is sent. *)
Theorem single_file_absent_columns_raise
    {W : Type} (eng : Engine W) (p : MaintenanceProperties) (w : W) :
  columns_to_analyze p = None ->
  value (run eng (NonTest.analyze_due p) w) = Ok true ->
  value (run eng (SingleFile.analyze_step p) w) = Raised TypeError /\
  issued (trace (run eng (SingleFile.analyze_step p) w)) = [].
Proof.
  intros Hnone Hdue.
  assert (Hquiet : issued (trace (run eng (NonTest.analyze_due p) w)) = []).
  { unfold NonTest.analyze_due, NonTest.interval_elapsed.
    destruct (truthy (should_analyze p)); [| reflexivity].
    destruct (last_analyzed_on p) as [l |]; [| reflexivity].
    destruct (timedelta (days_to_analyze p)) as [delta | e]; cbn [lift bind];
      [| reflexivity].
    destruct (datetime_add l delta) as [t | e]; cbn [lift bind]; reflexivity. }
  unfold SingleFile.analyze_step.
  rewrite issued_run_bind, run_bind, Hdue, Hquiet, Hnone.
  split; reflexivity.
Qed.

Lemma single_file_absent_columns_raise_witness :
  value (run Demo.engine (SingleFile.analyze_step (Demo.analyze_row "t1" None None))
             (Demo.at_time Demo.noon [] Demo.accepts_all)) = Raised TypeError.
Proof.
  exact (proj1 (single_file_absent_columns_raise Demo.engine
                  (Demo.analyze_row "t1" None None)
                  (Demo.at_time Demo.noon [] Demo.accepts_all) eq_refl eq_refl)).
Defined.

(** X13. On a row where each gated operation is either switched off or
    has never run, and where analyze, if due, has an empty column list, the
    single-file script and the tested script run alike: the same calls, the
    same final world, the same outcome. *)
Theorem variants_agree_on_fresh_rows
    {W : Type} (eng : Engine W) (p : MaintenanceProperties) (w : W) :
  (enabled GOptimize p = false \/ last_optimized_on p = None) ->
  (enabled GAnalyze p = false \/
   (last_analyzed_on p = None /\ columns_to_analyze p = Some [])) ->
  run eng (SingleFile.execute p) w = run eng (execute p) w.
Proof.
  intros Hopt Han.
  assert (Hsteps : SingleFile.maintenance_steps p = maintenance_steps p).
  { unfold SingleFile.maintenance_steps, maintenance_steps, steps_before_analyze,
      cleanup_steps, SingleFile.optimize_step, SingleFile.analyze_step,
      optimize_step, analyze_step, NonTest.optimize_due, NonTest.analyze_due,
      optimize_due, analyze_due, NonTest.interval_elapsed, interval_elapsed.
    cbn [enabled] in Hopt, Han.
    assert (Hoptimize :
      (if truthy (should_optimize p)
       then match last_optimized_on p with
            | Some l =>
                delta <- lift (timedelta (days_to_optimize p)) ;;
                due_at <- lift (datetime_add l delta) ;;
                Now (fun now => Ret (now <? due_at))
            | None => Ret true
            end
       else Ret false) =
      (if truthy (should_optimize p)
       then match last_optimized_on p with
            | Some l =>
                delta <- lift (timedelta (days_to_optimize p)) ;;
                due_at <- lift (datetime_add l delta) ;;
                Now (fun now => Ret (due_at <=? now))
            | None => @Ret exn bool true
            end
       else Ret false)).
    { destruct Hopt as [-> | ->]; reflexivity. }
    rewrite Hoptimize.
    destruct Han as [-> | [-> ->]]; [reflexivity |].
    destruct (truthy (should_analyze p)); reflexivity. }
  unfold SingleFile.execute, execute. rewrite Hsteps. reflexivity.
Qed.

Lemma variants_agree_on_fresh_rows_witness :
  run Demo.engine (SingleFile.execute (Demo.optimize_row "t1" None))
      (Demo.at_time Demo.noon [] Demo.accepts_all) =
  run Demo.engine (execute (Demo.optimize_row "t1" None))
      (Demo.at_time Demo.noon [] Demo.accepts_all).
Proof.
  exact (variants_agree_on_fresh_rows Demo.engine (Demo.optimize_row "t1" None)
           (Demo.at_time Demo.noon [] Demo.accepts_all)
           (or_intror eq_refl) (or_introl eq_refl)).
Defined.

(** ** The policy table across a task *)

Lemma sends_only_bind {E A B : Type} (Q : statement -> Prop)
    (t : task E A) (f : A -> task E B) :
  sends_only Q t -> (forall a, sends_only Q (f a)) -> sends_only Q (bind t f).
Proof.
  induction t as [a | e | k IH | k IH | s k IH | k IH]; simpl; intros Ht Hf; auto.
  destruct Ht as [Hs Hk]. split; auto.
Qed.

Lemma sends_only_releasing {E A : Type} (Q : statement -> Prop) (t : task E A) :
  sends_only Q t -> sends_only Q (releasing t).
Proof.
  induction t as [a | e | k IH | k IH | s k IH | k IH]; simpl; intros Ht; auto.
  destruct Ht as [Hs Hk]. split; auto.
Qed.

Lemma sends_only_try_except {E E' A : Type} (Q : statement -> Prop)
    (t : task E A) (h : E -> task E' A) :
  sends_only Q t -> (forall e, sends_only Q (h e)) ->
  sends_only Q (try_except t h).
Proof.
  induction t as [a | e | k IH | k IH | s k IH | k IH]; simpl; intros Ht Hh; auto.
  destruct Ht as [Hs Hk]. split; auto.
Qed.

Lemma sends_only_cur_execute (Q : statement -> Prop) (s : statement) :
  Q s -> sends_only Q (cur_execute s).
Proof.
  intros Hs. split; [exact Hs | intros [e |]; exact I].
Qed.

Lemma sends_only_interval_elapsed (Q : statement -> Prop)
    (last : option datetime) (days : option Z) :
  sends_only Q (interval_elapsed last days).
Proof.
  unfold interval_elapsed. destruct last as [l |]; [| exact I].
  destruct (timedelta days) as [delta | e]; cbn [lift bind]; [| exact I].
  destruct (datetime_add l delta) as [t | e]; cbn [lift bind]; [| exact I].
  intros n. exact I.
Qed.

(** The statements of the task of [p] are among the six of [p]. *)
Lemma sends_only_execute (p : MaintenanceProperties) :
  sends_only (fun s => In s (statements_of p)) (execute p).
Proof.
  unfold execute. apply sends_only_try_except; [| intros; exact I].
  unfold with_connection. intros [e |]; [exact I |].
  apply sends_only_releasing.
  unfold maintenance_steps, steps_before_analyze, cleanup_steps,
    remove_orphan_files_step, expire_snapshots_step, optimize_step, analyze_step,
    optimize_due, analyze_due.
  repeat apply sends_only_bind; intros;
    repeat match goal with
           | |- context [truthy ?f] => destruct (truthy f)
           | |- sends_only _ (if ?b then _ else _) => destruct b
           | |- sends_only _ (bind _ _) => apply sends_only_bind; intros
           end;
    try apply sends_only_interval_elapsed;
    try exact I;
    apply sends_only_cur_execute;
    unfold statements_of, cleanup_statements, gated_statements;
    cbn [app action bookkeeping In]; tauto.
Qed.

Lemma same_but_watermarks_trans (a b c : MaintenanceProperties) :
  same_but_watermarks a b -> same_but_watermarks b c -> same_but_watermarks a c.
Proof.
  unfold same_but_watermarks.
  intros (H1 & H2 & H3 & H4 & H5 & H6 & H7 & H8 & H9 & H10)
         (K1 & K2 & K3 & K4 & K5 & K6 & K7 & K8 & K9 & K10).
  repeat split; congruence.
Qed.

Lemma own_watermarks_only_refl (p row : MaintenanceProperties) :
  own_watermarks_only p row row.
Proof.
  split; [apply same_but_watermarks_refl | reflexivity].
Qed.

Lemma own_watermarks_only_trans (p a b c : MaintenanceProperties) :
  own_watermarks_only p a b -> own_watermarks_only p b c ->
  own_watermarks_only p a c.
Proof.
  intros [Hab Hab'] [Hbc Hbc']. split.
  - exact (same_but_watermarks_trans a b c Hab Hbc).
  - intros Hne. rewrite <- (Hab' Hne). apply Hbc'.
    rewrite (Hab' Hne). exact Hne.
Qed.

Lemma Forall2_trans_of {A : Type} (R : A -> A -> Prop) (l1 l2 l3 : list A) :
  (forall a b c, R a b -> R b c -> R a c) ->
  Forall2 R l1 l2 -> Forall2 R l2 l3 -> Forall2 R l1 l3.
Proof.
  intros Htrans H12. revert l3.
  induction H12 as [| a b l1 l2 Hab _ IH]; intros l3 H23;
    inversion H23; subst; constructor; eauto.
Qed.

Lemma store_effect_own_watermarks (reading : clause_reading)
    (p : MaintenanceProperties) (s : statement)
    (ts : datetime) (store : policy_store) :
  quote_free (table_name p) = true ->
  In s (statements_of p) ->
  Forall2 (own_watermarks_only p) store (store_effect reading s ts store).
Proof.
  intros Hq Hin.
  pose proof (store_effect_frame reading p s ts store Hq Hin) as Hframe.
  apply (Forall2_impl (own_watermarks_only p)) in Hframe; [exact Hframe |].
  intros old new [Hsame [-> | [Hname _]]].
  - apply own_watermarks_only_refl.
  - split; [exact Hsame | intros Hne; contradiction].
Qed.

Section Keeping.

Context {W : Type} (eng : Engine W) (store_of : W -> policy_store)
        (Hkeeps : keeps_policy_table eng store_of).

(** A relation on the rows that every statement of a task respects is
    respected by the run of the task. *)
Lemma run_respects {E A : Type} (Q : statement -> Prop)
    (R : MaintenanceProperties -> MaintenanceProperties -> Prop)
    (t : task E A) (w : W) :
  (forall a, R a a) ->
  (forall a b c, R a b -> R b c -> R a c) ->
  (forall reading s ts store,
     Q s -> Forall2 R store (store_effect reading s ts store)) ->
  sends_only Q t ->
  Forall2 R (store_of w) (store_of (final (run eng t w))).
Proof.
  intros Hrefl Htrans Hstmt. revert w.
  induction t as [a | e | k IH | k IH | s k IH | k IH]; intros w Ht; simpl in *.
  - apply Forall2_refl_of, Hrefl.
  - apply Forall2_refl_of, Hrefl.
  - pose proof (connect_keeps eng store_of Hkeeps w) as Hc.
    destruct (connection_factory eng w) as [w' r]. cbn [fst final after] in *.
    rewrite <- Hc. apply IH, Ht.
  - cbn [final after]. rewrite <- (exit_keeps eng store_of Hkeeps w). apply IH, Ht.
  - destruct Ht as [Hs Hk].
    pose proof (execute_acts eng store_of Hkeeps s w) as Hact.
    destruct (cursor_execute eng s w) as [w' r]. cbn [fst final after] in *.
    apply (Forall2_trans_of R _ (store_of w') _ Htrans); [| apply IH, Hk].
    destruct Hact as [-> | (reading & ts & ->)];
      [apply Forall2_refl_of, Hrefl | apply Hstmt, Hs].
  - cbn [final after]. apply IH, Ht.
Qed.

End Keeping.


Lemma demo_keeps_policy_table (reading : clause_reading) :
  keeps_policy_table (Demo.engine_reading reading) Demo.store.
Proof.
  constructor.
  - intros w. cbn [Demo.engine_reading connection_factory].
    destruct (Demo.reachable w); reflexivity.
  - intros w. reflexivity.
  - intros w. reflexivity.
  - intros s w. cbn [Demo.engine_reading cursor_execute].
    destruct (Demo.refuses w s); cbn [fst Demo.store].
    + left. reflexivity.
    + right. exists reading, (Demo.clock w). reflexivity.
Qed.


(** ** Column names in the ANALYZE clause *)

Lemma string_literals_with_columns (c : string) (cs : list string) :
  Forall (fun x => quote_free x = true) (c :: cs) ->
  string_literals (with_columns (Some (c :: cs))) = c :: cs.
Proof.
  intros Hfree. unfold string_literals, with_columns.
  rewrite scan_literals_skip by reflexivity.
  rewrite scan_literals_skip by reflexivity.
  rewrite scan_literals_skip by reflexivity.
  apply scan_literals_concat; [exact Hfree | reflexivity].
Qed.

(** X3. The clause of the tested variant determines the column list as
    long as no name holds a quote character; names are not escaped, so
    with a quote in a name two different lists give the same clause. *)
Theorem with_columns_determines_columns :
  (forall cs cs',
     cs <> [] -> cs' <> [] ->
     Forall (fun x => quote_free x = true) cs ->
     Forall (fun x => quote_free x = true) cs' ->
     with_columns (Some cs) = with_columns (Some cs') ->
     cs = cs')
  /\
  (exists cs cs',
     cs <> cs' /\ with_columns (Some cs) = with_columns (Some cs')).
Proof.
  split.
  - intros [| c cs] [| c' cs'] Hne Hne' Hfree Hfree' Heq;
      try contradiction.
    rewrite <- (string_literals_with_columns c cs Hfree).
    rewrite <- (string_literals_with_columns c' cs' Hfree').
    rewrite Heq. reflexivity.
  - exists ["a', 'b"%string], ["a"%string; "b"%string].
    split; [discriminate | reflexivity].
Qed.
